(** * The ABAP debug listener of vscode_abap_remote_fs

    A shallow embedding of [client/src/adt/debugger/debugListener.ts]:
    the error classifier [errorType] / [isConflictError], the process-wide
    session counters, and the [DebugListener] class with its arbitration
    probe, listen loop and lifecycle entry points.

    JavaScript values are modelled by a small data type, exceptions by an
    explicit result type, and the asynchronous methods by a state monad over
    the session fields and a world that scripts the outcomes of the remote
    calls and records everything the listener does.  Calls to the logging
    helper [log] are left out: they only print.

    What the code imports and does not define is taken as given, as
    parameters of the model: the predicates of the ADT client library, the
    file-system calls of [fs] and [path], and the case mapping of the
    engine.  Concrete stand-ins are defined for the examples only.

    The last part embeds [src/adt/AdtServer.ts]: the parts of a URI, the
    descent through the tree of a server, and the cache of servers. *)

From Stdlib Require Import ZArith List String Ascii Bool Lia.
From stdpp Require Import base option strings pretty gmap.

Set Warnings "-register-all".

Local Open Scope string_scope.
Local Open Scope list_scope.

(** ** JavaScript values *)

(** The values the listener inspects at run time: errors caught from the
    remote client, results of remote calls, message texts.  Plain data is
    enough for that: primitives and objects holding data properties.
    Numbers are the integers. *)
Inductive JsVal : Type :=
| JUndefined
| JNull
| JBool (b : bool)
| JNum (n : Z)
| JStr (s : string)
| JObj (fields : list (string * JsVal)).

(** Synchronous JavaScript code either yields a value or throws one. *)
Inductive Result (A : Type) : Type :=
| Val (a : A)
| Exn (e : JsVal).
Arguments Val {A} a.
Arguments Exn {A} e.

Module Js.

Definition ret {A} (a : A) : Result A := Val a.

Definition bind {A B} (m : Result A) (k : A -> Result B) : Result B :=
  match m with
  | Val a => k a
  | Exn e => Exn e
  end.

(** [try { m } catch (e) { h e }] *)
Definition try_catch {A} (m : Result A) (h : JsVal -> Result A) : Result A :=
  match m with
  | Val a => Val a
  | Exn e => h e
  end.

(** An [Error] object carrying a message, as built by [new Error(msg)]
    or raised by the engine (a [TypeError]). *)
Definition Error (name message : string) : JsVal :=
  JObj [("name", JStr name); ("message", JStr message)].

Definition TypeError (message : string) : JsVal := Error "TypeError" message.

(** Own data property of an object; primitives have none of the
    properties this module reads. *)
Fixpoint assoc (k : string) (fields : list (string * JsVal)) : JsVal :=
  match fields with
  | [] => JUndefined
  | (k', v) :: rest => if String.eqb k k' then v else assoc k rest
  end.

Definition get_prop (k : string) (v : JsVal) : JsVal :=
  match v with
  | JObj fields => assoc k fields
  | _ => JUndefined
  end.

Definition nullish (v : JsVal) : bool :=
  match v with
  | JUndefined | JNull => true
  | _ => false
  end.

(** [v.k]: reading a property of [undefined] or [null] throws. *)
Definition member (k : string) (v : JsVal) : Result JsVal :=
  if nullish v
  then Exn (TypeError ("Cannot read properties of undefined (reading '" +:+ k +:+ "')"))
  else Val (get_prop k v).

(** [v?.k]: optional chaining yields [undefined] on [undefined] or [null]. *)
Definition opt_member (k : string) (v : JsVal) : JsVal :=
  if nullish v then JUndefined else get_prop k v.

(** ToBoolean *)
Definition truthy (v : JsVal) : bool :=
  match v with
  | JUndefined | JNull => false
  | JBool b => b
  | JNum n => negb (n =? 0)%Z
  | JStr s => negb (String.eqb s "")
  | JObj _ => true
  end.

(** [a || b] on values *)
Definition or_else (a b : JsVal) : JsVal := if truthy a then a else b.

(** ToString, as performed by a template literal [`${v}`]. *)
Definition to_string (v : JsVal) : string :=
  match v with
  | JUndefined => "undefined"
  | JNull => "null"
  | JBool true => "true"
  | JBool false => "false"
  | JNum n => pretty n
  | JStr s => s
  | JObj _ => "[object Object]"
  end.

(** [s] contains [pat]: what matching an unanchored literal regular
    expression decides. *)
Fixpoint contains (pat s : string) : bool :=
  String.prefix pat s ||
  match s with
  | EmptyString => false
  | String _ s' => contains pat s'
  end.

(** Strict equality [v === "lit"] against a string literal. *)
Definition is_string (lit : string) (v : JsVal) : bool :=
  match v with
  | JStr s => String.eqb s lit
  | _ => false
  end.

End Js.

Declare Scope js_scope.
Delimit Scope js_scope with js.
Notation "x <- m ;;; k" := (Js.bind m (fun x => k))
  (at level 100, m at next level, right associativity) : js_scope.

(** ** The error classifier *)

Definition ATTACHTIMEOUT : string := "autoAttachTimeout".
Definition SUBTYPE : string := "com.sap.adt.communicationFramework.subType".

(** The body of the [try] block of [errorType]. *)
Definition errorType_body (err : JsVal) : Result JsVal :=
  (let exceptionType := Js.opt_member SUBTYPE (Js.opt_member "properties" err) in
   timedOut <-
     (if negb (Js.truthy exceptionType)
      then response <- Js.member "response" err ;;;
           body <- Js.member "body" response ;;;
           Js.ret (Js.contains "Connection timed out" (Js.to_string body))
      else Js.ret false) ;;;
   if timedOut then Js.ret (JStr ATTACHTIMEOUT) else Js.ret exceptionType)%js.

(** [errorType]: the [catch] clause is empty, so the function falls off its
    end and yields [undefined]. *)
Definition errorType (err : JsVal) : Result JsVal :=
  Js.try_catch (errorType_body err) (fun _ => Js.ret JUndefined).

(** [isConflictError]: [(errorType(e) || "").match(/.../)], reduced to the
    truthiness of the match result.  Only strings have a [match] method. *)
Definition isConflictError (e : JsVal) : Result bool :=
  (t <- errorType e ;;;
   match Js.or_else t (JStr "") with
   | JStr s =>
       Js.ret (Js.contains "conflictNotification" s || Js.contains "conflictDetected" s)
   | _ => Exn (Js.TypeError "(errorType(...) || '').match is not a function")
   end)%js.

(** ** What the listener imports *)

(** Predicates and helpers the listener imports but does not define:
    [isAdtError] and [isDebugListenerError] of the ADT client library and
    the [caughtToString] helper.  Everything below is parametric in them. *)
Class Imports : Type := {
  isAdtError : JsVal -> bool;
  isDebugListenerError : JsVal -> bool;
  caughtToString : JsVal -> string
}.

(** ** Sessions, remote calls and the world *)

Inductive DebuggingMode : Type := ModeTerminal | ModeUser.

(** The fields of a [DebugListener] instance. *)
Record Session : Type := mkSession {
  connId : string;
  mode : DebuggingMode;
  terminalId : string;
  ideId : string;
  username : string;
  sessionNumber : nat;
  active : bool;
  attached : bool;
  killed : bool
}.

Definition set_active (b : bool) (s : Session) : Session :=
  mkSession (connId s) (mode s) (terminalId s) (ideId s) (username s)
            (sessionNumber s) b (attached s) (killed s).

Definition set_attached (b : bool) (s : Session) : Session :=
  mkSession (connId s) (mode s) (terminalId s) (ideId s) (username s)
            (sessionNumber s) (active s) b (killed s).

Definition set_killed (b : bool) (s : Session) : Session :=
  mkSession (connId s) (mode s) (terminalId s) (ideId s) (username s)
            (sessionNumber s) (active s) (attached s) b.

Definition THREADID : Z := 1.

(** The calls that reach the underlying ADT client.  The first three go
    through its stateless clone, the next four through the client itself,
    the last one is [statelessClone.logout()]. *)
Inductive RemoteCall : Type :=
| DebuggerListen (m : DebuggingMode) (terminal ide user : string)
| DebuggerListeners (m : DebuggingMode) (terminal ide user : string)
| DebuggerDeleteListener (m : DebuggingMode) (terminal ide user : string)
| DebuggerAttach (m : DebuggingMode) (debuggeeId : JsVal) (user : string) (stopOnAttach : bool)
| DebuggerSaveSettings
| DropSession
| Logout
| CloneLogout.

Inductive DebugEvent : Type :=
| StoppedEvent (reason : string) (threadId : Z)
| TerminatedEvent.

(** What the listener does to its surroundings.  A remote call is recorded
    at the moment it is issued, together with the session fields at that
    moment. *)
Inductive Action : Type :=
| ARemote (c : RemoteCall) (at_issue : Session)
| AConfirm (message : string)
| AShowError (message : JsVal)
| AFire (e : DebugEvent).

(** How the promise returned by a remote call settles. *)
Inductive Outcome : Type :=
| Resolve (v : JsVal)
| Reject (e : JsVal).

(** The surroundings of one listener: the outcomes of the remote calls it
    will issue, in issue order; the answers of the user to the confirmation
    prompts; the [loggedin] flag of the client; and the actions so far. *)
Record World : Type := mkWorld {
  script : list Outcome;
  answers : list bool;
  loggedin : bool;
  trace : list Action
}.

Definition record (a : Action) (w : World) : World :=
  mkWorld (script w) (answers w) (loggedin w) (trace w ++ [a]).

Definition with_script (l : list Outcome) (w : World) : World :=
  mkWorld l (answers w) (loggedin w) (trace w).

Definition with_answers (l : list bool) (w : World) : World :=
  mkWorld (script w) l (loggedin w) (trace w).

(** ** Asynchronous computations *)

(** How an [async] method ends: its promise is fulfilled, it is rejected,
    it is never settled because an awaited promise never settles
    ([Pending]), or the model ran out of loop fuel. *)
Inductive Completion (A : Type) : Type :=
| Normal (a : A)
| Throw (e : JsVal)
| Pending
| OutOfFuel.
Arguments Normal {A} a.
Arguments Throw {A} e.
Arguments Pending {A}.
Arguments OutOfFuel {A}.

Definition M (A : Type) : Type := Session -> World -> Completion A * Session * World.

Definition ret {A} (a : A) : M A := fun s w => (Normal a, s, w).

Definition throw {A} (e : JsVal) : M A := fun s w => (Throw e, s, w).

Definition bind {A B} (m : M A) (k : A -> M B) : M B :=
  fun s w =>
    match m s w with
    | (Normal a, s', w') => k a s' w'
    | (Throw e, s', w') => (Throw e, s', w')
    | (Pending, s', w') => (Pending, s', w')
    | (OutOfFuel, s', w') => (OutOfFuel, s', w')
    end.

Declare Scope async_scope.
Delimit Scope async_scope with async.
Notation "x <- m ;; k" := (bind m (fun x => k))
  (at level 100, m at next level, right associativity) : async_scope.
Notation "m ;; k" := (bind m (fun _ => k))
  (at level 100, k at level 200, right associativity) : async_scope.
Local Open Scope async_scope.

(** [promise.then(onFulfilled, onRejected)]: [onRejected] sees a rejection
    of [promise] only, never one raised by [onFulfilled]. *)
Definition then_ {A B} (m : M A) (onFulfilled : A -> M B) (onRejected : JsVal -> M B) : M B :=
  fun s w =>
    match m s w with
    | (Normal a, s', w') => onFulfilled a s' w'
    | (Throw e, s', w') => onRejected e s' w'
    | (Pending, s', w') => (Pending, s', w')
    | (OutOfFuel, s', w') => (OutOfFuel, s', w')
    end.

(** [try { m } catch (e) { h e }], and [promise.catch(h)]. *)
Definition try_catch {A} (m : M A) (h : JsVal -> M A) : M A := then_ m ret h.

(** Synchronous code run inside an asynchronous method. *)
Definition lift {A} (r : Result A) : M A :=
  match r with
  | Val a => ret a
  | Exn e => throw e
  end.

Definition get {A} (f : Session -> A) : M A := fun s w => (Normal (f s), s, w).

Definition modify (f : Session -> Session) : M unit := fun s w => (Normal tt, f s, w).

(** Runs [m], then applies [f] to the session however [m] ended. *)
Definition also {A} (f : Session -> Session) (m : M A) : M A :=
  fun s w => let '(c, s', w') := m s w in (c, f s', w').

(** Issues a remote call and awaits it. *)
Definition remote (c : RemoteCall) : M JsVal :=
  fun s w =>
    let w' := record (ARemote c s) w in
    match script w with
    | [] => (Pending, s, w')
    | Resolve v :: rest => (Normal v, s, with_script rest w')
    | Reject e :: rest => (Throw e, s, with_script rest w')
    end.

(** [ui.Confirmator(message)], awaited. *)
Definition Confirmator (message : string) : M bool :=
  fun s w =>
    let w' := record (AConfirm message) w in
    match answers w with
    | [] => (Pending, s, w')
    | b :: rest => (Normal b, s, with_answers rest w')
    end.

(** [ui.ShowError(message)] *)
Definition ShowError (message : JsVal) : M unit :=
  fun s w => (Normal tt, s, record (AShowError message) w).

(** [notifier.fire(event)] *)
Definition fire (e : DebugEvent) : M unit :=
  fun s w => (Normal tt, s, record (AFire e) w).

Definition ask {A} (f : World -> A) : M A := fun s w => (Normal (f w), s, w).

(** Issues the call [c s] built from the current fields and awaits it. *)
Definition remote_of (c : Session -> RemoteCall) : M JsVal :=
  fun s w => remote (c s) s w.

(** Runs [m] to the point where its promise settles and hands the
    settlement over as a value, as holding the promise does. *)
Definition settle {A} (m : M A) : M (Completion A) :=
  fun s w => let '(c, s', w') := m s w in (Normal c, s', w').

(** Awaiting a promise that has already been run. *)
Definition settled {A} (c : Completion A) : M A := fun s w => (c, s, w).

(** A method call whose promise is dropped: the caller goes on, a rejection
    stays unhandled. *)
Definition detached {A} (m : M A) : M unit :=
  fun s w => let '(_, s', w') := m s w in (Normal tt, s', w').

(** [Promise.all]: rejected if a member is, else unsettled if a member is,
    else fulfilled.  Of several rejections the one of the earliest member is
    taken, where the engine takes the one that settles first.  The values are
    dropped. *)
Fixpoint promise_all (ps : list (Completion unit)) : Completion unit :=
  match ps with
  | [] => Normal tt
  | Throw e :: _ => Throw e
  | Normal _ :: rest => promise_all rest
  | Pending :: rest =>
      match promise_all rest with
      | Throw e => Throw e
      | _ => Pending
      end
  | OutOfFuel :: rest =>
      match promise_all rest with
      | Throw e => Throw e
      | Pending => Pending
      | _ => OutOfFuel
      end
  end.

Definition all (ps : list (Completion unit)) : M unit := settled (promise_all ps).

Definition void {A} (m : M A) : M unit := _ <- m ;; ret tt.

(** ** The process-wide session counters and the constructor *)

(** The arguments of [new DebugListener(...)].  [clientUsername] is the
    value of [_client.username.toUpperCase()], the user name of the client as
    the engine upper-cases it, and [newIdeId] what [getOrCreateIdeId()]
    returns. *)
Record NewArgs : Type := mkNewArgs {
  newConnId : string;
  clientUsername : string;
  newTerminalId : string;
  newUsername : string;
  terminalMode : bool;
  newIdeId : string
}.

(** The constructor, run against the module-level [sessionNumbers] map.
    [get(connId) || 0] is the stored number, or 0 when there is none. *)
Definition constructor (a : NewArgs) (sessionNumbers : gmap string nat)
  : Session * gmap string nat :=
  let n := default 0 (sessionNumbers !! newConnId a) + 1 in
  (mkSession (newConnId a)
             (if terminalMode a then ModeTerminal else ModeUser)
             (newTerminalId a)
             (newIdeId a)
             (if String.eqb (newUsername a) "" then clientUsername a
              else newUsername a)
             n false false false,
   <[newConnId a := n]> sessionNumbers).

(** A sequence of constructions, oldest first. *)
Fixpoint constructions (l : list NewArgs) (sessionNumbers : gmap string nat)
  : list Session * gmap string nat :=
  match l with
  | [] => ([], sessionNumbers)
  | a :: rest =>
      let '(s, m1) := constructor a sessionNumbers in
      let '(ss, m2) := constructions rest m1 in
      (s :: ss, m2)
  end.

(** The numbers handed to the sessions of one connection, oldest first. *)
Definition numbers_of (c : string) (ss : list Session) : list nat :=
  map sessionNumber (filter (fun s => connId s = c) ss).

(** ** The listener *)

Inductive ConflictResult : Type :=
| WithNone
| WithOther (message : JsVal)
| WithMyself (message : JsVal).

Inductive LoopCtl : Type := Continue | Break | Return.

Definition Disconnected : JsVal := Js.Error "Error" "Disconnected".

(** [error?.properties?.conflictText] *)
Definition conflictText (error : JsVal) : JsVal :=
  Js.opt_member "conflictText" (Js.opt_member "properties" error).

Definition listen_call (s : Session) : RemoteCall :=
  DebuggerListen (mode s) (terminalId s) (ideId s) (username s).

Definition listeners_call (s : Session) : RemoteCall :=
  DebuggerListeners (mode s) (terminalId s) (ideId s) (username s).

Definition user_listeners_call (s : Session) : RemoteCall :=
  DebuggerListeners ModeUser (terminalId s) (ideId s) (username s).

Definition delete_call (s : Session) : RemoteCall :=
  DebuggerDeleteListener (mode s) (terminalId s) (ideId s) (username s).

Definition attach_call (debuggeeId : JsVal) (s : Session) : RemoteCall :=
  DebuggerAttach (mode s) debuggeeId (username s) true.

Section DebugListener.

Context `{Imports}.

(** The [client] getter: the guard every call through [this.client]
    passes first. *)
Definition client : M unit :=
  k <- get killed ;;
  if k then throw Disconnected else ret tt.

(** [stopListener] reads [this._client], not the guarded getter. *)
Definition stopListener (norestart : bool) : M JsVal :=
  (if norestart then modify (set_active false) else ret tt) ;;
  remote_of delete_call.

Definition debuggerListen : M JsVal :=
  client ;; remote_of listen_call.

(** The first [try] of [hasConflict]: [Some r] when it returns [r]. *)
Definition hasConflict_first : M (option ConflictResult) :=
  try_catch
    (client ;; _ <- remote_of listeners_call ;; ret None)
    (fun error =>
       c <- lift (isConflictError error) ;;
       if c then ret (Some (WithOther (conflictText error))) else throw error).

(** The second [try] of [hasConflict] and the final [return]. *)
Definition hasConflict_second : M ConflictResult :=
  try_catch
    (client ;; _ <- remote_of listeners_call ;; ret WithNone)
    (fun error =>
       c <- lift (isConflictError error) ;;
       if c then ret (WithMyself (conflictText error)) else throw error).

(** [hasConflict], called by code that runs [during] before it awaits the
    returned promise.  An [async] method runs up to its first [await]
    (here: until the first probe is issued) and hands control back; the
    caller's synchronous code then runs before the method resumes. *)
Definition hasConflict_sched (during : Session -> Session) : M ConflictResult :=
  r <- also during hasConflict_first ;;
  match r with
  | Some c => ret c
  | None => hasConflict_second
  end.

(** [await this.hasConflict()] *)
Definition hasConflict : M ConflictResult := hasConflict_sched (fun s => s).

Definition stopDebugging (stopDebugger : bool) : M unit :=
  modify (set_active false) ;;
  (if stopDebugger then
     client ;;
     running <- then_ (remote_of user_listeners_call)
                      (fun v => ret (Js.truthy v))
                      (fun e => lift (isConflictError e)) ;;
     if running then void (stopListener true) else ret tt
   else ret tt) ;;
  fire TerminatedEvent.

Definition onBreakpointReached (debuggee : JsVal) : M unit :=
  try_catch
    (a <- get attached ;;
     (if negb a then
        client ;;
        id <- lift (Js.member "DEBUGGEE_ID" debuggee) ;;
        void (remote_of (attach_call id))
      else ret tt) ;;
     modify (set_attached true) ;;
     client ;;
     _ <- remote DebuggerSaveSettings ;;
     fire (StoppedEvent "breakpoint" THREADID))
    (fun error => stopDebugging true).

(** One turn of the [while] loop of [mainLoop]. *)
Definition mainLoop_turn : M LoopCtl :=
  try_catch
    (debuggee <- debuggerListen ;;
     a <- get active ;;
     if negb (Js.truthy debuggee) || negb a then ret Continue
     else if isDebugListenerError debuggee then ret Break
     else onBreakpointReached debuggee ;; ret Continue)
    (fun error =>
       a <- get active ;;
       if negb a then ret Return
       else if negb (isAdtError error) then
         ShowError (JStr ("Error listening to debugger: " +:+ caughtToString error)) ;;
         ret Continue
       else
         exceptionType <- lift (errorType error) ;;
         if Js.is_string "conflictNotification" exceptionType
            || Js.is_string "conflictDetected" exceptionType
         then
           ShowError (Js.or_else (conflictText error)
                                 (JStr "Debugger terminated by another session/user")) ;;
           stopDebugging false ;;
           ret Continue
         else if Js.is_string ATTACHTIMEOUT exceptionType then ret Continue
         else
           quit <- Confirmator ("Error listening to debugger: "
                                +:+ caughtToString error +:+ " Close session?") ;;
           (if quit then stopDebugging true else ret tt) ;;
           ret Continue).

Fixpoint mainLoop_while (fuel : nat) : M unit :=
  a <- get active ;;
  if a then
    match fuel with
    | O => settled OutOfFuel
    | S fuel' =>
        c <- mainLoop_turn ;;
        match c with
        | Continue => mainLoop_while fuel'
        | Break | Return => ret tt
        end
    end
  else ret tt.

Definition mainLoop (fuel : nat) : M unit :=
  modify (set_active true) ;; mainLoop_while fuel.

(** [this.mainLoop()] is called without [await]. *)
Definition fireMainLoop (fuel : nat) : M bool :=
  try_catch
    (conflict <- hasConflict ;;
     match conflict with
     | WithMyself _ =>
         _ <- stopListener true ;;
         detached (mainLoop fuel) ;;
         ret true
     | WithOther message =>
         resp <- Confirmator (Js.to_string (Js.or_else message (JStr "Debugger conflict detected"))
                              +:+ " Take over debugging?") ;;
         if resp then
           _ <- stopListener false ;;
           detached (mainLoop fuel) ;;
           ret true
         else ret false
     | WithNone =>
         detached (mainLoop fuel) ;;
         ret true
     end)
    (fun error =>
       ShowError (JStr ("Error listening to debugger: " +:+ caughtToString error)) ;;
       ret false).

Definition ignore (_ : JsVal) : M unit := ret tt.

(** The inner arrow [logout] of the [logout] method: both calls are
    issued, then awaited together. *)
Definition logout_clients : M unit :=
  p1 <- settle (void (remote Logout)) ;;
  p2 <- settle (void (remote CloneLogout)) ;;
  all [p1; p2].

(** The promise [stop] of [logout].  [this.killed = true] runs while the
    first probe of [hasConflict] is in flight. *)
Definition logout_stop : M unit :=
  then_ (hasConflict_sched (set_killed true))
        (fun r => match r with
                  | WithMyself _ => try_catch (void (stopListener true)) ignore
                  | _ => ret tt
                  end)
        ignore.

Definition logout : M unit :=
  modify (set_active false) ;;
  modify (set_attached false) ;;
  k <- get killed ;;
  if k then ret tt
  else
    client ;;
    stop <- settle logout_stop ;;
    li <- ask loggedin ;;
    if li then
      chain <- settle (then_ (then_ (settled stop)
                                    (fun _ => void (remote DropSession))
                                    ignore)
                             (fun _ => logout_clients)
                             ignore) ;;
      all [stop; chain]
    else all [stop].

End DebugListener.

(** ** Vocabulary of the statements *)

Definition outcome {A} (x : Completion A * Session * World) : Completion A := fst (fst x).
Definition session {A} (x : Completion A * Session * World) : Session := snd (fst x).
Definition world {A} (x : Completion A * Session * World) : World := snd x.

(** The structured sub-type field of an error's property bag. *)
Definition subType_field (err : JsVal) : JsVal :=
  Js.opt_member SUBTYPE (Js.opt_member "properties" err).

(** The text of the response body, when the error has a response to read
    it from. *)
Definition body_text (err : JsVal) : option string :=
  match Js.member "response" err with
  | Val response =>
      match Js.member "body" response with
      | Val body => Some (Js.to_string body)
      | Exn _ => None
      end
  | Exn _ => None
  end.

(** The response body text carries the connection-timeout signature. *)
Definition timed_out (err : JsVal) : Prop :=
  exists txt, body_text err = Some txt /\ Js.contains "Connection timed out" txt = true.

Definition is_defined (v : JsVal) : bool :=
  match v with
  | JUndefined => false
  | _ => true
  end.

(** The classifier as the specification words it, for a given reading
    [present] of "the field is present". *)
Definition classifier_as_specified (present : JsVal -> bool) (err : JsVal) : Prop :=
  (exists v, errorType err = Val v) /\
  (present (subType_field err) = true -> errorType err = Val (subType_field err)) /\
  (present (subType_field err) = false -> timed_out err ->
   errorType err = Val (JStr ATTACHTIMEOUT)) /\
  (present (subType_field err) = false -> ~ timed_out err ->
   errorType err = Val JUndefined).

(** An error whose sub-type field holds the empty string, without and with
    a response. *)
Definition blank_subtype_error : JsVal :=
  JObj [("properties", JObj [(SUBTYPE, JStr "")])].

Definition blank_subtype_error_with_body : JsVal :=
  JObj [("properties", JObj [(SUBTYPE, JStr "")]);
        ("response", JObj [("body", JStr "ok")])].

(** A probe outcome that "fails with a conflict classification". *)
Definition conflict_failure (o : Outcome) : Prop :=
  exists e, o = Reject e /\ isConflictError e = Val true.

Definition fulfilled (o : Outcome) : Prop := exists v, o = Resolve v.

(** The attribution rule of the arbitration probe as the specification
    words it, for a result [r] and the outcomes [o1], [o2] of the first and
    the second probe call. *)
Definition probe_as_specified (r : Completion ConflictResult) (o1 o2 : Outcome) : Prop :=
  ((exists m, r = Normal (WithMyself m)) <-> conflict_failure o1 /\ conflict_failure o2) /\
  ((exists m, r = Normal (WithOther m)) <-> conflict_failure o1 /\ ~ conflict_failure o2) /\
  (r = Normal WithNone <-> fulfilled o1).

(** The remote calls among some actions, in order. *)
Fixpoint calls (l : list Action) : list RemoteCall :=
  match l with
  | [] => []
  | ARemote c _ :: rest => c :: calls rest
  | _ :: rest => calls rest
  end.

(** The events fired among some actions, in order. *)
Fixpoint fired (l : list Action) : list DebugEvent :=
  match l with
  | [] => []
  | AFire e :: rest => e :: fired rest
  | _ :: rest => fired rest
  end.

(** A method refuses to work on a killed instance: it fails with
    [Disconnected], does nothing observable, and leaves the instance
    killed. *)
Definition refuses_when_killed {A} (m : M A) : Prop :=
  forall st w,
    killed st = true ->
    outcome (m st w) = Throw Disconnected /\
    trace (world (m st w)) = trace w /\
    killed (session (m st w)) = true.

(** What [stopDebugging] takes for "a listener is still registered", from
    the outcome of its probe: the truthiness of the result, or of the
    conflict match on the error. *)
Definition listener_found (o : Outcome) : Result bool :=
  match o with
  | Resolve v => Val (Js.truthy v)
  | Reject e => isConflictError e
  end.

(** "[stopDebugging(true)] emits exactly one terminated event." *)
Definition terminated_once (st : Session) (w : World) : Prop :=
  fired (trace (world (stopDebugging true st w))) = fired (trace w) ++ [TerminatedEvent].

(** "If the listener probe then throws, [active] stays false even though
    the terminated event has not been fired", as the claim words it: for
    every rejection of the probe call. *)
Definition probe_failure_as_specified (st : Session) (w : World) : Prop :=
  forall e rest,
    script w = Reject e :: rest ->
    let x := stopDebugging true st w in
    active (session x) = false /\
    fired (trace (world x)) = fired (trace w).




Definition is_attach (c : RemoteCall) : bool :=
  match c with
  | DebuggerAttach _ _ _ _ => true
  | _ => false
  end.

(** The save-settings call fails with [e] after the attach step: either the
    session was attached already, or the attach call has just succeeded. *)
Definition saveSettings_fails (debuggee : JsVal) (st : Session) (w w1 : World)
    (e : JsVal) : Prop :=
  let save := ARemote DebuggerSaveSettings (set_attached true st) in
  (attached st = true /\
   exists rest,
     script w = Reject e :: rest /\
     w1 = mkWorld rest (answers w) (loggedin w) (trace w ++ [save]))
  \/
  (attached st = false /\
   exists id v rest,
     Js.member "DEBUGGEE_ID" debuggee = Val id /\
     script w = Resolve v :: Reject e :: rest /\
     w1 = mkWorld rest (answers w) (loggedin w)
                  (trace w ++ [ARemote (attach_call id st) st; save])).

(** The state of a session in which no attach call can be issued any
    more: [attached] is set, or the guard refuses the call. *)
Definition no_more_attach (st : Session) : Prop :=
  attached st = true \/ killed st = true.

(** Started in such a state, [m] ends in such a state and issues no attach
    call. *)
Definition attach_free {A} (m : M A) : Prop :=
  forall st w,
    no_more_attach st ->
    no_more_attach (session (m st w)) /\
    forall c s, In (ARemote c s) (trace (world (m st w))) ->
                In (ARemote c s) (trace w) \/ is_attach c = false.

(** The public methods that act on a listener once it is built. *)
Inductive PublicCall : Type :=
| CallFireMainLoop (fuel : nat)
| CallStopDebugging (stopDebugger : bool)
| CallLogout.

Definition invoke `{Imports} (c : PublicCall) : M unit :=
  match c with
  | CallFireMainLoop fuel => void (fireMainLoop fuel)
  | CallStopDebugging stopDebugger => stopDebugging stopDebugger
  | CallLogout => logout
  end.

(** [later st st']: the session [st'] is what [st] has become after some
    calls of public methods, each in a world of its own. *)
Inductive later `{Imports} (st : Session) : Session -> Prop :=
| later_now : later st st
| later_call (st' : Session) (c : PublicCall) (w : World) :
    later st st' -> later st (session (invoke c st' w)).

(** ** A concrete setting for examples *)

(** A stand-in for the imported helpers: an ADT error is an object named
    [AdtErrorException], a listener error a result with an [errorType]. *)
Definition example_imports : Imports := {|
  isAdtError e := Js.is_string "AdtErrorException" (Js.get_prop "name" e);
  isDebugListenerError v := Js.truthy (Js.get_prop "errorType" v);
  caughtToString e := Js.to_string (Js.or_else (Js.get_prop "message" e) e)
|}.

Definition fresh_session : Session :=
  mkSession "dev100" ModeUser "TERM01" "IDE01" "ALICE" 1 false false false.

Definition world_of (outcomes : list Outcome) (replies : list bool) : World :=
  mkWorld outcomes replies true [].

(** A structured ADT error reporting a conflict with a message. *)
Definition conflict_error : JsVal :=
  JObj [("name", JStr "AdtErrorException");
        ("properties", JObj [(SUBTYPE, JStr "conflictNotification");
                             ("conflictText", JStr "held by BOB")])].

Definition network_error : JsVal := Js.Error "Error" "socket hang up".

(** ** Kinds of remote calls *)

Definition is_listen (c : RemoteCall) : bool :=
  match c with
  | DebuggerListen _ _ _ _ => true
  | _ => false
  end.

Definition is_delete (c : RemoteCall) : bool :=
  match c with
  | DebuggerDeleteListener _ _ _ _ => true
  | _ => false
  end.

Definition is_saveSettings (c : RemoteCall) : bool :=
  match c with
  | DebuggerSaveSettings => true
  | _ => false
  end.

(** The world [w] after the calls [cs] were issued and answered, [rest]
    being what is left of the script. *)
Definition after_calls (rest : list Outcome) (acts : list Action) (w : World) : World :=
  mkWorld rest (answers w) (loggedin w) (trace w ++ acts).

Definition is_probe (c : RemoteCall) : bool :=
  match c with
  | DebuggerListeners _ _ _ _ => true
  | _ => false
  end.

(** ** Identities: the workspace id and the terminal id *)

Definition upper_ascii (c : ascii) : ascii :=
  let n := nat_of_ascii c in
  if (97 <=? n)%nat && (n <=? 122)%nat then ascii_of_nat (n - 32) else c.

(** [toUpperCase] on ASCII strings, which is what it is applied to here: a
    UUID is made of hexadecimal digits and hyphens. *)
Fixpoint toUpperCase (s : string) : string :=
  match s with
  | EmptyString => EmptyString
  | String c s' => String (upper_ascii c) (toUpperCase s')
  end.

(** [s.replace(/-/g, "")] *)
Fixpoint remove_hyphens (s : string) : string :=
  match s with
  | EmptyString => EmptyString
  | String c s' =>
      if Ascii.eqb c "-" then remove_hyphens s' else String c (remove_hyphens s')
  end.

(** A fresh identifier made from a version-1 UUID [uuid], as in
    [v1().replace(/-/g, "").toUpperCase()]. *)
Definition fresh_id (uuid : string) : string := toUpperCase (remove_hyphens uuid).

Definition IDE_KEY : string := "adt.ideId".

(** [getOrCreateIdeId], run against the workspace state; [uuid] is what
    [v1()] yields if it is called. *)
Definition getOrCreateIdeId (uuid : string) (workspaceState : gmap string JsVal)
  : string * gmap string JsVal :=
  match workspaceState !! IDE_KEY with
  | Some (JStr ideId) => (ideId, workspaceState)
  | _ =>
      let newIdeId := fresh_id uuid in
      (newIdeId, <[IDE_KEY := JStr newIdeId]> workspaceState)
  end.

(** What [getOrCreateTerminalId] imports from [fs] and [path]: the calls
    on the file system and [join].  They are taken as given.  [Disk] is the
    state of the file system; a call that throws yields [Exn]; a call that
    writes comes with the disk as it leaves it, also when it throws. *)
Class FileSystem : Type := {
  Disk : Type;
  join : string -> string -> string;
  (** [readFileSync(path).toString("utf8")] *)
  readFileSync : string -> Disk -> Result string;
  existsSync : string -> Disk -> bool;
  (** [mkdirSync(path, { recursive: true })] *)
  mkdirSync : string -> Disk -> Result unit * Disk;
  (** [writeFileSync(path, data)] *)
  writeFileSync : string -> string -> Disk -> Result unit * Disk
}.

Section Identities.

Context `{FileSystem}.

(** The part of the machine [getOrCreateTerminalId] looks at: the platform,
    the registry reader of Windows (absent when [getWinRegistryReader] yields
    nothing; a read yields a string or nothing), the home directory and the
    disk. *)
Record Machine : Type := mkMachine {
  platform : string;
  registryReader : option (string -> string -> string -> option string);
  homedir : string;
  disk : Disk
}.

Definition with_disk (d : Disk) (m : Machine) : Machine :=
  mkMachine (platform m) (registryReader m) (homedir m) d.

Definition cfgpath (m : Machine) : string := join (homedir m) ".SAP/ABAPDebugging".

Definition cfgfile (m : Machine) : string := join (cfgpath m) "terminalId".

(** [getOrCreateTerminalId]; [uuid] is what [v1()] yields if it is called.
    The result comes with the machine as the call leaves it.  Whatever
    [readFileSync] throws is caught; what [mkdirSync] or [writeFileSync]
    throws in the [catch] block rejects the call. *)
Definition getOrCreateTerminalId (uuid : string) (m : Machine) : Result string * Machine :=
  if String.eqb (platform m) "win32" then
    let terminalId :=
      match registryReader m with
      | Some reg => reg "HKEY_CURRENT_USER" "Software\SAP\ABAP Debugging" "TerminalID"
      | None => None
      end in
    match terminalId with
    | Some t =>
        if String.eqb t ""
        then (Exn (Js.Error "Error" "Unable to read terminal ID from windows registry"), m)
        else (Val t, m)
    | None => (Exn (Js.Error "Error" "Unable to read terminal ID from windows registry"), m)
    end
  else
    match readFileSync (cfgfile m) (disk m) with
    | Val content => (Val content, m)
    | Exn _ =>
        let terminalId := fresh_id uuid in
        let made :=
          if existsSync (cfgpath m) (disk m) then (Val tt, disk m)
          else mkdirSync (cfgpath m) (disk m) in
        match made with
        | (Exn e, d1) => (Exn e, with_disk d1 m)
        | (Val _, d1) =>
            match writeFileSync (cfgfile m) terminalId d1 with
            | (Exn e, d2) => (Exn e, with_disk d2 m)
            | (Val _, d2) => (Val terminalId, with_disk d2 m)
            end
        end
    end.

(** Everything [DebugListener.create] reads and writes outside the
    instance. *)
Record Host : Type := mkHost {
  machine : Machine;
  workspaceState : gmap string JsVal;
  sessionNumbers : gmap string nat
}.

(** [DebugListener.create].  [found] is what [getOrCreateClient(connId)]
    settles with: nothing, or a client, of which the upper-cased user name
    is kept; [uuid1] and [uuid2] are what the two possible calls of [v1()]
    yield. *)
Definition create (connId : string) (found : Result (option string))
    (username : string) (terminalMode : bool) (uuid1 uuid2 : string) (h : Host)
  : Result Session * Host :=
  match found with
  | Exn e => (Exn e, h)
  | Val None => (Exn (Js.Error "Error" ("Unable to get client for" +:+ connId)), h)
  | Val (Some clientUsername) =>
      match getOrCreateTerminalId uuid1 (machine h) with
      | (Exn e, m) => (Exn e, mkHost m (workspaceState h) (sessionNumbers h))
      | (Val terminalId, m) =>
          let '(ideId, ws) := getOrCreateIdeId uuid2 (workspaceState h) in
          let '(s, numbers) :=
            constructor (mkNewArgs connId clientUsername terminalId username
                                   terminalMode ideId)
                        (sessionNumbers h) in
          (Val s, mkHost m ws numbers)
      end
  end.

End Identities.

(** *** A disk in memory, for examples *)

(** Directories and files by their paths, without permissions. *)
Record MemDisk : Type := mkMemDisk {
  dirs : gset string;
  files : gmap string string
}.

Definition fs_error (code path : string) : JsVal :=
  JObj [("code", JStr code); ("path", JStr path)].

(** The proper prefixes of a path that end before a slash, shortest first;
    [sofar] is what has been read of the path. *)
Fixpoint ancestors_from (sofar path : string) : list string :=
  match path with
  | EmptyString => []
  | String c rest =>
      (if Ascii.eqb c "/" && negb (String.eqb sofar "") then [sofar] else [])
      ++ ancestors_from (sofar +:+ String c EmptyString) rest
  end.

Definition ancestors (path : string) : list string := ancestors_from "" path.

Definition is_file (d : MemDisk) (path : string) : bool :=
  bool_decide (is_Some (files d !! path)) && negb (bool_decide (path ∈ dirs d)).

Definition mem_readFileSync (path : string) (d : MemDisk) : Result string :=
  if bool_decide (path ∈ dirs d) then Exn (fs_error "EISDIR" path)
  else match files d !! path with
       | Some content => Val content
       | None => Exn (fs_error "ENOENT" path)
       end.

Definition mem_existsSync (path : string) (d : MemDisk) : bool :=
  bool_decide (path ∈ dirs d) || bool_decide (is_Some (files d !! path)).

(** A recursive [mkdir] makes the missing ancestors too, and fails when a
    file is in the way. *)
Definition mem_mkdirSync (path : string) (d : MemDisk) : Result unit * MemDisk :=
  let wanted := ancestors path ++ [path] in
  if existsb (is_file d) wanted then (Exn (fs_error "ENOTDIR" path), d)
  else (Val tt, mkMemDisk (list_to_set wanted ∪ dirs d) (files d)).

(** A write needs the directory of the file, and no directory in the place
    of the file. *)
Definition mem_writeFileSync (path content : string) (d : MemDisk)
  : Result unit * MemDisk :=
  if bool_decide (path ∈ dirs d) then (Exn (fs_error "EISDIR" path), d)
  else if forallb (fun p => bool_decide (p ∈ dirs d)) (ancestors path)
       then (Val tt, mkMemDisk (dirs d) (<[path := content]> (files d)))
       else (Exn (fs_error "ENOENT" path), d).

Definition example_fs : FileSystem := {|
  Disk := MemDisk;
  join a b := a +:+ "/" +:+ b;
  readFileSync := mem_readFileSync;
  existsSync := mem_existsSync;
  mkdirSync := mem_mkdirSync;
  writeFileSync := mem_writeFileSync
|}.

(** ** The servers of the file system: [src/adt/AdtServer.ts] *)

Module AdtServer.

Record Uri : Type := mkUri {
  scheme : string;
  authority : string;
  path : string
}.

(** [FileSystemError.FileNotFound(uri)] *)
Definition FileNotFound (uri : Uri) : JsVal :=
  JObj [("name", JStr "EntryNotFound (FileSystemError)");
        ("code", JStr "FileNotFound");
        ("message", JStr (path uri))].

(** [s.split("/")]: the pieces between the slashes; never empty. *)
Fixpoint split_slash (s : string) : list string :=
  match s with
  | EmptyString => [EmptyString]
  | String c s' =>
      if Ascii.eqb c "/" then EmptyString :: split_slash s'
      else
        match split_slash s' with
        | piece :: rest => String c piece :: rest
        | [] => [String c EmptyString]
        end
  end.

(** [arr.filter((v, idx) => keep v idx)], the elements of [l] being those
    from index [idx] on. *)
Fixpoint filter_from {A} (keep : A -> nat -> bool) (idx : nat) (l : list A) : list A :=
  match l with
  | [] => []
  | v :: rest =>
      if keep v idx then v :: filter_from keep (S idx) rest
      else filter_from keep (S idx) rest
  end.

(** [uriParts]: an element stays if it is neither first nor last, or if
    it is not empty. *)
Definition uriParts (uri : Uri) : list string :=
  let arr := split_slash (path uri) in
  filter_from
    (fun v idx => ((0 <? idx)%nat && (idx <? length arr - 1)%nat) || negb (String.eqb v ""))
    0 arr.

Section Nodes.

(** The nodes of the tree of a server and their [getChild].  Every node has
    the method, as the type [AbapNode] says ([findNodePromise] calls it
    unchecked), so the test ["getChild" in current] fails on [undefined]
    only; the method yields a node or [undefined]. *)
Context {Node : Type} (getChild : Node -> string -> option Node).

(** The callback of the [reduce] in [findNode]. *)
Definition findNode_step (uri : Uri) (current : option Node) (name : string)
  : Result (option Node) :=
  match current with
  | Some node => Val (getChild node name)
  | None => Exn (FileNotFound uri)
  end.

(** [parts.reduce(callback, current)] *)
Fixpoint reduce (uri : Uri) (parts : list string) (current : option Node)
  : Result (option Node) :=
  match parts with
  | [] => Val current
  | name :: rest =>
      match findNode_step uri current name with
      | Val next => reduce uri rest next
      | Exn e => Exn e
      end
  end.

Definition findNode (root : Node) (uri : Uri) : Result (option Node) :=
  reduce uri (uriParts uri) (Some root).

End Nodes.

Section Refreshing.

(** For [findNodePromise] the children of a node depend on what has been
    fetched so far: [Store] is that state, [refresh] fetches the children of
    a node (and may fail, leaving a store behind), [connectionP] is what
    awaiting the connection promise gives. *)
Context {Store Node : Type}
        (getChild : Store -> Node -> string -> option Node)
        (canRefresh : Store -> Node -> bool)
        (refresh : Store -> Node -> Result unit * Store)
        (connectionP : Result unit).

Fixpoint findNodePromise_loop (uri : Uri) (parts : list string) (node : Node) (s : Store)
  : Result Node * Store :=
  match parts with
  | [] => (Val node, s)
  | part :: rest =>
      match getChild s node part with
      | Some next => findNodePromise_loop uri rest next s
      | None =>
          if canRefresh s node then
            match connectionP with
            | Exn e => (Exn e, s)
            | Val _ =>
                match refresh s node with
                | (Exn e, s') => (Exn e, s')
                | (Val _, s') =>
                    match getChild s' node part with
                    | Some next => findNodePromise_loop uri rest next s'
                    | None => (Exn (FileNotFound uri), s')
                    end
                end
            end
          else (Exn (FileNotFound uri), s)
      end
  end.

Definition findNodePromise (root : Node) (uri : Uri) (s : Store) : Result Node * Store :=
  findNodePromise_loop uri (uriParts uri) root s.

(** [stat]: [isDirectory] is the test [node.type === FileType.Directory],
    [nodeStat] the method [stat] of a node. *)
Context (isDirectory : Store -> Node -> bool)
        (nodeStat : Store -> Node -> Result unit * Store).

Definition stat (root : Node) (uri : Uri) (s : Store) : Result Node * Store :=
  match findNodePromise root uri s with
  | (Exn e, s1) => (Exn e, s1)
  | (Val node, s1) =>
      if canRefresh s1 node then
        match connectionP with
        | Exn e => (Exn e, s1)
        | Val _ =>
            match (if isDirectory s1 node then refresh s1 node else nodeStat s1 node) with
            | (Exn e, s2) => (Exn e, s2)
            | (Val _, s2) => (Val node, s2)
            end
        end
      else (Val node, s1)
  end.

End Refreshing.

(** [String.prototype.toLowerCase]: the case mapping of the engine, taken
    as given.  What is proved of the servers holds whatever it maps a string
    to. *)
Class CaseMapping : Type := {
  toLowerCase : string -> string
}.

(** What the constructor keeps of a server: its connection id and the
    name of the configuration it was built from. *)
Record Server : Type := mkServer {
  connectionId : string;
  remote : string
}.

Section Servers.

Context `{CaseMapping}.

(** The constructor of [AdtServer], up to the set-up of the connection and
    of the root folder; [remotes] lists the names of the configurations
    [getRemoteList()] yields. *)
Definition constructor (connId : string) (remotes : list string) : Result Server :=
  match List.filter (fun name => String.eqb (toLowerCase name) (toLowerCase connId)) remotes with
  | config :: _ => Val (mkServer (toLowerCase config) config)
  | [] => Exn (Js.Error "Error" ("connection " +:+ connId))
  end.

(** [getServer], run against the module-level [servers] map. *)
Definition getServer (connId : string) (remotes : list string) (servers : gmap string Server)
  : Result Server * gmap string Server :=
  match servers !! connId with
  | Some server => (Val server, servers)
  | None =>
      match constructor connId remotes with
      | Val server => (Val server, <[connId := server]> servers)
      | Exn e => (Exn e, servers)
      end
  end.

Definition fromUri (uri : Uri) (remotes : list string) (servers : gmap string Server)
  : Result Server * gmap string Server :=
  if String.eqb (scheme uri) "adt" then getServer (authority uri) remotes servers
  else (Exn (FileNotFound uri), servers).

(** A run of [getServer] calls, each with the configurations of its
    moment; the map the last call leaves. *)
Fixpoint getServer_all (l : list (string * list string)) (servers : gmap string Server)
  : gmap string Server :=
  match l with
  | [] => servers
  | (connId, remotes) :: rest => getServer_all rest (getServer connId remotes servers).2
  end.

End Servers.

(** A case mapping for examples: the engine's on ASCII strings. *)
Definition lower_ascii (c : ascii) : ascii :=
  let n := nat_of_ascii c in
  if (65 <=? n)%nat && (n <=? 90)%nat then ascii_of_nat (n + 32) else c.

Fixpoint lower_ascii_string (s : string) : string :=
  match s with
  | EmptyString => EmptyString
  | String c s' => String (lower_ascii c) (lower_ascii_string s')
  end.

Definition ascii_case : CaseMapping := {| toLowerCase := lower_ascii_string |}.

End AdtServer.
(** ** Vocabulary for the servers *)

Module AdtServerFacts.

(** A string without a slash. *)
Definition slash_free (s : string) : Prop :=
  ~ In "/"%char (list_ascii_of_string s).

(** A segment with a name: not empty and without a slash. *)
Definition named (s : string) : Prop := s <> "" /\ slash_free s.

(** The descent along [parts] from [node], as far as the children are
    there. *)
Fixpoint walk {Node : Type} (getChild : Node -> string -> option Node)
    (parts : list string) (node : Node) : option Node :=
  match parts with
  | [] => Some node
  | name :: rest =>
      match getChild node name with
      | Some next => walk getChild rest next
      | None => None
      end
  end.

(** Every server in the map is cached under a spelling of its own
    connection id, and was built from a configuration of that name, case
    aside. *)
Definition well_keyed `{AdtServer.CaseMapping} (servers : gmap string AdtServer.Server)
  : Prop :=
  forall key server,
    servers !! key = Some server ->
    AdtServer.connectionId server = AdtServer.toLowerCase key /\
    AdtServer.toLowerCase (AdtServer.remote server) = AdtServer.toLowerCase key.

End AdtServerFacts.

(** * Properties *)

(** ** The error classifier *)

Lemma errorType_body_truthy (err : JsVal) :
  Js.truthy (subType_field err) = true ->
  errorType_body err = Val (subType_field err).
Proof.
  intros Ht. unfold errorType_body. fold (subType_field err).
  rewrite Ht. reflexivity.
Qed.

Lemma errorType_body_falsy (err : JsVal) :
  Js.truthy (subType_field err) = false ->
  errorType_body err =
  match Js.member "response" err with
  | Val response =>
      match Js.member "body" response with
      | Val body =>
          if Js.contains "Connection timed out" (Js.to_string body)
          then Val (JStr ATTACHTIMEOUT) else Val (subType_field err)
      | Exn e => Exn e
      end
  | Exn e => Exn e
  end.
Proof.
  intros Hf. unfold errorType_body. fold (subType_field err).
  rewrite Hf. simpl.
  destruct (Js.member "response" err) as [response|e]; simpl; [|reflexivity].
  destruct (Js.member "body" response) as [body|e]; simpl; [|reflexivity].
  destruct (Js.contains _ _); reflexivity.
Qed.

(** The classifier never throws. *)
Lemma errorType_total (err : JsVal) : exists v, errorType err = Val v.
Proof.
  unfold errorType, Js.try_catch.
  destruct (errorType_body err) as [v|e]; eauto.
Qed.

(** C6, as the code has it.  For every value [err], [errorType] returns a
    value and never throws.  It returns the sub-type field when that field
    is truthy.  When the field is falsy (missing, or a falsy value such as
    the empty string) it returns the attach-timeout kind if the response
    body text can be read and carries the connection-timeout signature;
    otherwise it returns a falsy value: [undefined] when the extraction of
    the body text fails, whatever the field holds, and the field itself when
    the text is read and does not match, so [undefined] when the field is
    missing. *)
Theorem errorType_classification (err : JsVal) :
  (exists v, errorType err = Val v) /\
  (Js.truthy (subType_field err) = true ->
   errorType err = Val (subType_field err)) /\
  (Js.truthy (subType_field err) = false -> timed_out err ->
   errorType err = Val (JStr ATTACHTIMEOUT)) /\
  (Js.truthy (subType_field err) = false -> ~ timed_out err ->
   exists v, errorType err = Val v /\ Js.truthy v = false /\
             (subType_field err = JUndefined -> v = JUndefined) /\
             (body_text err = None -> v = JUndefined) /\
             (forall txt, body_text err = Some txt -> v = subType_field err)).
Proof.
  split; [apply errorType_total|].
  split; [|split].
  - intros Ht. unfold errorType. rewrite errorType_body_truthy by assumption.
    reflexivity.
  - intros Hf (txt & Hbody & Hmatch). unfold errorType.
    rewrite errorType_body_falsy by assumption.
    unfold body_text in Hbody.
    destruct (Js.member "response" err) as [response|e]; [|discriminate].
    destruct (Js.member "body" response) as [body|e]; [|discriminate].
    injection Hbody as <-. rewrite Hmatch. reflexivity.
  - intros Hf Hno. unfold errorType.
    rewrite errorType_body_falsy by assumption.
    unfold timed_out, body_text in *.
    destruct (Js.member "response" err) as [response|e]; simpl.
    + destruct (Js.member "body" response) as [body|e]; simpl.
      * destruct (Js.contains "Connection timed out" (Js.to_string body)) eqn:Hc.
        -- exfalso. apply Hno. eauto.
        -- exists (subType_field err).
           repeat split; auto. intros Hnone. discriminate Hnone.
      * exists JUndefined. repeat split; auto. intros txt Hsome. discriminate Hsome.
    + exists JUndefined. repeat split; auto. intros txt Hsome. discriminate Hsome.
Qed.

Lemma errorType_classification_witness :
  errorType (JObj [("response", JObj [("body", JStr "504 Connection timed out")])])
  = Val (JStr ATTACHTIMEOUT).
Proof.
  apply (proj1 (proj2 (proj2
           (errorType_classification
              (JObj [("response", JObj [("body", JStr "504 Connection timed out")])]))))).
  - reflexivity.
  - exists "504 Connection timed out". split; reflexivity.
Defined.

(** C6 as worded fails on an empty sub-type field, whichever way "present"
    is read.  Read as "defined": the field is there, yet without a response
    the result is [undefined], not the field.  Read as "truthy": the field
    counts as absent and the body does not match, yet the result is the
    empty string, not [undefined]. *)
Lemma errorType_blank_subtype_counterexample :
  ~ classifier_as_specified is_defined blank_subtype_error /\
  ~ classifier_as_specified Js.truthy blank_subtype_error_with_body.
Proof.
  split.
  - intros (_ & Hpresent & _). specialize (Hpresent eq_refl). discriminate Hpresent.
  - intros (_ & _ & _ & Hotherwise).
    assert (Hno : ~ timed_out blank_subtype_error_with_body).
    { intros (txt & Hbody & Hmatch). vm_compute in Hbody.
      injection Hbody as <-. vm_compute in Hmatch. discriminate Hmatch. }
    specialize (Hotherwise eq_refl Hno). discriminate Hotherwise.
Qed.

(** ** Session numbers *)

Lemma constructor_number (a : NewArgs) (m : gmap string nat) :
  sessionNumber (constructor a m).1 = default 0 (m !! newConnId a) + 1.
Proof. reflexivity. Qed.

Lemma constructor_connId (a : NewArgs) (m : gmap string nat) :
  connId (constructor a m).1 = newConnId a.
Proof. reflexivity. Qed.

(** A construction bumps the counter of its own connection... *)
Lemma constructor_counter_own (a : NewArgs) (m : gmap string nat) :
  default 0 ((constructor a m).2 !! newConnId a) = default 0 (m !! newConnId a) + 1.
Proof. unfold constructor; simpl. rewrite lookup_insert_eq. reflexivity. Qed.

(** ... and leaves the counters of the other connections alone. *)
Lemma constructor_counter_other (a : NewArgs) (m : gmap string nat) (c : string) :
  newConnId a <> c -> (constructor a m).2 !! c = m !! c.
Proof. intros Hne. unfold constructor; simpl. apply lookup_insert_ne, Hne. Qed.

Lemma constructions_cons (a : NewArgs) (rest : list NewArgs) (m : gmap string nat) :
  (constructions (a :: rest) m).1 =
  (constructor a m).1 :: (constructions rest (constructor a m).2).1.
Proof.
  cbn [constructions].
  destruct (constructor a m) as [s m1]. cbn [fst snd].
  destruct (constructions rest m1) as [ss m2]. reflexivity.
Qed.

Lemma numbers_of_constructions (l : list NewArgs) (c : string) (m : gmap string nat) :
  numbers_of c (constructions l m).1 =
  seq (default 0 (m !! c) + 1) (length (filter (fun a => newConnId a = c) l)).
Proof.
  revert m. induction l as [|a rest IH]; intros m; [reflexivity|].
  rewrite constructions_cons. unfold numbers_of in *.
  rewrite !filter_cons. cbn beta. rewrite constructor_connId.
  destruct (decide (newConnId a = c)) as [Heq|Hne].
  - cbn [map length seq]. rewrite IH. f_equal.
    + rewrite constructor_number, Heq. reflexivity.
    + rewrite <- Heq, constructor_counter_own. f_equal. lia.
  - rewrite IH, constructor_counter_other by assumption. reflexivity.
Qed.

(** C7.  Start from the empty [sessionNumbers] map of a fresh process and
    run any sequence of constructions.  The sessions of a connection [c]
    get, in order, the numbers 1, 2, ..., k, where k counts the
    constructions for [c]: 1-based, strictly increasing, and untouched by
    the constructions for other connections. *)
Theorem session_numbers_per_connection (l : list NewArgs) (c : string) :
  numbers_of c (constructions l ∅).1 =
  seq 1 (length (filter (fun a => newConnId a = c) l)).
Proof.
  rewrite numbers_of_constructions, lookup_empty. reflexivity.
Qed.

(** ** Running the model *)

Arguments isConflictError : simpl never.
Arguments errorType : simpl never.

Lemma calls_app (l1 l2 : list Action) : calls (l1 ++ l2) = calls l1 ++ calls l2.
Proof.
  induction l1 as [|a l1 IH]; [reflexivity|].
  destruct a; simpl; rewrite IH; reflexivity.
Qed.

Lemma fired_app (l1 l2 : list Action) : fired (l1 ++ l2) = fired l1 ++ fired l2.
Proof.
  induction l1 as [|a l1 IH]; [reflexivity|].
  destruct a; simpl; rewrite IH; reflexivity.
Qed.

Lemma isConflictError_Disconnected : isConflictError Disconnected = Val false.
Proof. reflexivity. Qed.

(** Evaluates a method on a session and a world given by their fields,
    leaving the classifier, the imported helpers and the lists of actions
    folded. *)
Ltac run :=
  cbv -[isConflictError errorType conflictText conflict_failure fulfilled
        calls fired app String.append Js.to_string Js.truthy Js.or_else
        Js.member Js.get_prop Js.is_string
        isAdtError isDebugListenerError caughtToString In not Disconnected];
  rewrite ?isConflictError_Disconnected.

Ltac on_fields st w :=
  destruct st as [? ? ? ? ? ? ? ? ?]; destruct w as [? ? ? ?]; cbn in *; subst.

(** Splits on what the evaluation is stuck on: an outcome or a flag still
    unknown, a classification, a truthiness test. *)
Ltac split_cases :=
  repeat match goal with
    | |- context [isConflictError Disconnected] => rewrite isConflictError_Disconnected
    | |- context [match ?x with _ => _ end] => is_var x; destruct x
    | |- context [match isConflictError ?e with _ => _ end] =>
        destruct (isConflictError e) as [[|]|?] eqn:?
    | |- context [match errorType ?e with _ => _ end] =>
        destruct (errorType e) as [?|?] eqn:?
    | |- context [match Js.member ?k ?v with _ => _ end] =>
        destruct (Js.member k v) as [?|?] eqn:?
    | |- context [if Js.truthy ?v then _ else _] => destruct (Js.truthy v) eqn:?
    end.

Ltac crunch := run; repeat (progress (split_cases; run)).

Ltac tidy_lists :=
  rewrite ?fired_app, ?calls_app; simpl; rewrite <- ?app_assoc, ?app_nil_r; simpl.

(** Membership of a recorded remote call in a trace that grew by a few
    known actions. *)
Ltac in_trace :=
  rewrite ?in_app_iff; simpl; intuition (try discriminate);
  match goal with
  | H : ARemote _ _ = ARemote _ _ |- _ => injection H as <- <-; auto
  end.

(** ** The arbitration probe *)

Lemma conflict_failure_Reject (e : JsVal) :
  conflict_failure (Reject e) <-> isConflictError e = Val true.
Proof.
  split.
  - intros (e' & Heq & Hc). injection Heq as <-. exact Hc.
  - intros Hc. exists e. split; [reflexivity | exact Hc].
Qed.

Lemma conflict_failure_Resolve (v : JsVal) : ~ conflict_failure (Resolve v).
Proof. intros (e & Heq & _). discriminate Heq. Qed.

Lemma fulfilled_Resolve (v : JsVal) : fulfilled (Resolve v).
Proof. exists v. reflexivity. Qed.

Lemma fulfilled_Reject (e : JsVal) : ~ fulfilled (Reject e).
Proof. intros (v & Heq). discriminate Heq. Qed.

Ltac probe_cases :=
  repeat split; intros;
  repeat match goal with
    | H : exists _, _ |- _ => destruct H
    | H : _ /\ _ |- _ => destruct H
    | H : conflict_failure (Resolve _) |- _ =>
        exfalso; exact (conflict_failure_Resolve _ H)
    | H : fulfilled (Reject _) |- _ => exfalso; exact (fulfilled_Reject _ H)
    | H : conflict_failure (Reject _) |- _ => apply conflict_failure_Reject in H
    | |- conflict_failure (Reject _) => apply conflict_failure_Reject
    | |- fulfilled (Resolve _) => apply fulfilled_Resolve
    end;
  try congruence; eauto.

(** C1, as the code has it.  On a live instance, for every pair of outcomes
    of the two probe calls: [hasConflict] returns "other" iff the first probe
    fails with a conflict classification, and then the second probe is not
    issued at all; it returns "myself" iff the first probe succeeds and the
    second fails with a conflict classification; it returns "none" iff both
    probes succeed. *)
Theorem hasConflict_attribution (st : Session) (w : World) (o1 o2 : Outcome)
    (rest : list Outcome) :
  killed st = false ->
  script w = o1 :: o2 :: rest ->
  let r := outcome (hasConflict st w) in
  ((exists m, r = Normal (WithOther m)) <-> conflict_failure o1) /\
  ((exists m, r = Normal (WithMyself m)) <-> fulfilled o1 /\ conflict_failure o2) /\
  (r = Normal WithNone <-> fulfilled o1 /\ fulfilled o2) /\
  (conflict_failure o1 ->
   script (world (hasConflict st w)) = o2 :: rest /\
   calls (trace (world (hasConflict st w))) = calls (trace w) ++ [listeners_call st]).
Proof.
  intros Hk Hs.
  destruct st as [c md t i u n a at_ k], w as [sc an li tr].
  cbn in Hk, Hs. subst k sc.
  destruct o1 as [v1|e1]; [destruct o2 as [v2|e2]|].
  - run. rewrite calls_app. probe_cases.
  - run. destruct (isConflictError e2) as [[|]|x] eqn:H2; rewrite calls_app; probe_cases.
  - run. destruct (isConflictError e1) as [[|]|x] eqn:H1; rewrite calls_app; probe_cases.
Qed.

Lemma hasConflict_attribution_witness :
  exists m,
    outcome (hasConflict fresh_session
               (world_of [Resolve JUndefined; Reject conflict_error] []))
    = Normal (WithMyself m).
Proof.
  apply (proj1 (proj2 (hasConflict_attribution fresh_session
           (world_of [Resolve JUndefined; Reject conflict_error] [])
           (Resolve JUndefined) (Reject conflict_error) [] eq_refl eq_refl))).
  split.
  - apply fulfilled_Resolve.
  - apply conflict_failure_Reject. reflexivity.
Defined.

(** C1 as worded fails: when both probes would fail with a conflict
    classification the result is "other", not "myself". *)
Lemma hasConflict_both_conflicts_counterexample :
  ~ probe_as_specified
      (outcome (hasConflict fresh_session
                  (world_of [Reject conflict_error; Reject conflict_error] [])))
      (Reject conflict_error) (Reject conflict_error).
Proof.
  intros [[_ Hmyself] _].
  destruct Hmyself as [m Hm].
  - split; apply conflict_failure_Reject; reflexivity.
  - vm_compute in Hm. discriminate Hm.
Qed.

(** ** The killed guard *)

Lemma debuggerListen_refuses : refuses_when_killed debuggerListen.
Proof. intros st w Hk. on_fields st w. run. auto. Qed.

Lemma hasConflict_refuses : refuses_when_killed hasConflict.
Proof. intros st w Hk. on_fields st w. run. auto. Qed.

Lemma stopDebugging_refuses : refuses_when_killed (stopDebugging true).
Proof. intros st w Hk. on_fields st w. run. auto. Qed.

Lemma onBreakpointReached_refuses (debuggee : JsVal) :
  refuses_when_killed (onBreakpointReached debuggee).
Proof.
  intros st w Hk.
  destruct st as [c md t i u n act [|] k], w as [sc an li tr];
    cbn in Hk; subst k; run; auto.
Qed.

(** [stopListener] always hands the delete call to the client. *)
Lemma stopListener_calls (norestart : bool) (st : Session) (w : World) :
  calls (trace (world (stopListener norestart st w))) = calls (trace w) ++ [delete_call st].
Proof.
  on_fields st w. destruct norestart; crunch; rewrite calls_app; reflexivity.
Qed.

Section Killed.

Context `{Imports}.

(** Called on a killed instance, a public method leaves it killed and
    issues no remote call at all. *)
Lemma invoke_killed (call : PublicCall) (st : Session) (w : World) :
  killed st = true ->
  killed (session (invoke call st w)) = true /\
  calls (trace (world (invoke call st w))) = calls (trace w).
Proof.
  intros Hk. destruct call as [fuel|[|]|]; on_fields st w; crunch;
    tidy_lists; auto.
Qed.

Lemma later_killed (st st' : Session) :
  killed st = true -> later st st' -> killed st' = true.
Proof.
  intros Hk Hlater. induction Hlater as [|st' c w Hlater IH]; [exact Hk|].
  apply invoke_killed, IH.
Qed.

(** C3, as the code has it.  On a killed instance the calls made through
    the guarded [client] getter are refused: listen, the conflict probe,
    attach and save-settings (inside [onBreakpointReached], whatever
    [attached] is) and the listener probe of [stopDebugging(true)] all fail
    with [Disconnected], record no action at all, and leave the instance
    killed.  So once the flag is set, whatever public methods are called and
    in whatever worlds, the instance stays killed and no remote call is
    issued.  The delete-listener call itself is not guarded: [stopListener]
    hands it to the client whatever [killed] is. *)
Theorem killed_guard :
  refuses_when_killed debuggerListen /\
  refuses_when_killed hasConflict /\
  (forall debuggee, refuses_when_killed (onBreakpointReached debuggee)) /\
  refuses_when_killed (stopDebugging true) /\
  (forall st st' call w,
      killed st = true -> later st st' ->
      killed (session (invoke call st' w)) = true /\
      calls (trace (world (invoke call st' w))) = calls (trace w)) /\
  (forall norestart st w,
      calls (trace (world (stopListener norestart st w)))
      = calls (trace w) ++ [delete_call st]).
Proof.
  split; [exact debuggerListen_refuses|].
  split; [exact hasConflict_refuses|].
  split; [exact onBreakpointReached_refuses|].
  split; [exact stopDebugging_refuses|].
  split; [|exact stopListener_calls].
  intros st st' call w Hk Hlater.
  apply invoke_killed. apply (later_killed st st' Hk Hlater).
Qed.

End Killed.

Lemma killed_guard_witness :
  outcome (hasConflict (set_killed true fresh_session)
             (world_of [Reject conflict_error] []))
  = Throw Disconnected.
Proof.
  apply (proj1 (proj2 (@killed_guard example_imports)) (set_killed true fresh_session)
           (world_of [Reject conflict_error] []) eq_refl).
Defined.

(** C3 as worded fails for the delete-listener call: on a killed instance
    [stopListener] reaches the client and ends as the call does.  The
    method runs on a killed instance when [logout] sets the flag while
    [fireMainLoop] or [stopDebugging] is suspended before its call of
    [stopListener]. *)
Lemma stopListener_killed_counterexample :
  ~ refuses_when_killed (stopListener true).
Proof.
  intros Hrefuses.
  destruct (Hrefuses (set_killed true fresh_session)
                     (world_of [Resolve JUndefined] []) eq_refl) as [Hout _].
  vm_compute in Hout. discriminate Hout.
Qed.

(** ** Stopping *)

(** The terminated event is the last thing [stopDebugging] does: it is
    fired once when the method completes and not at all otherwise. *)
Lemma stopDebugging_fires (b : bool) (st : Session) (w : World) :
  fired (trace (world (stopDebugging b st w))) =
  fired (trace w) ++
  match outcome (stopDebugging b st w) with
  | Normal _ => [TerminatedEvent]
  | _ => []
  end.
Proof.
  on_fields st w. destruct b; crunch; tidy_lists; reflexivity.
Qed.

Lemma stopDebugging_no_listener (st : Session) (w : World) (o : Outcome)
    (rest : list Outcome) :
  killed st = false -> script w = o :: rest -> listener_found o = Val false ->
  outcome (stopDebugging true st w) = Normal tt.
Proof.
  intros Hk Hs Hf. on_fields st w. destruct o; cbn in Hf.
  - injection Hf as Hf. run. rewrite Hf. reflexivity.
  - run. rewrite Hf. reflexivity.
Qed.

Lemma stopDebugging_teardown (st : Session) (w : World) (o o' : Outcome)
    (rest : list Outcome) :
  killed st = false -> script w = o :: o' :: rest -> listener_found o = Val true ->
  outcome (stopDebugging true st w) =
  match o' with
  | Resolve _ => Normal tt
  | Reject e => Throw e
  end.
Proof.
  intros Hk Hs Hf. on_fields st w. destruct o; cbn in Hf.
  - injection Hf as Hf. run. rewrite Hf. destruct o'; reflexivity.
  - run. rewrite Hf. destruct o'; reflexivity.
Qed.

(** C4, as the code has it.  [stopDebugging(true)] fires the terminated
    event exactly once when it completes, and it completes on a live instance
    whether the probe finds no listener (also when the probe itself fails) or
    finds one and the teardown succeeds.  When the instance is killed or the
    teardown call fails, the method rejects and no event is fired. *)
Theorem stopDebugging_terminated (st : Session) (w : World) :
  let x := stopDebugging true st w in
  (outcome x = Normal tt -> fired (trace (world x)) = fired (trace w) ++ [TerminatedEvent]) /\
  (outcome x <> Normal tt -> fired (trace (world x)) = fired (trace w)) /\
  (forall o rest,
      killed st = false -> script w = o :: rest -> listener_found o = Val false ->
      outcome x = Normal tt) /\
  (forall o v rest,
      killed st = false -> script w = o :: Resolve v :: rest ->
      listener_found o = Val true ->
      outcome x = Normal tt) /\
  (forall o e rest,
      killed st = false -> script w = o :: Reject e :: rest ->
      listener_found o = Val true ->
      outcome x = Throw e) /\
  (killed st = true -> outcome x = Throw Disconnected).
Proof.
  cbv zeta. repeat split.
  - intros Hn. rewrite stopDebugging_fires, Hn. reflexivity.
  - intros Hn. rewrite stopDebugging_fires.
    destruct (outcome (stopDebugging true st w)) as [[]| | |];
      [contradiction | | |]; apply app_nil_r.
  - intros o rest. apply stopDebugging_no_listener.
  - intros o v rest Hk Hs Hf.
    rewrite (stopDebugging_teardown st w o (Resolve v) rest Hk Hs Hf). reflexivity.
  - intros o e rest Hk Hs Hf.
    rewrite (stopDebugging_teardown st w o (Reject e) rest Hk Hs Hf). reflexivity.
  - intros Hk. apply stopDebugging_refuses, Hk.
Qed.

Lemma stopDebugging_terminated_witness :
  fired (trace (world (stopDebugging true fresh_session
                         (world_of [Resolve (JBool true); Resolve JUndefined] []))))
  = [TerminatedEvent].
Proof.
  apply (proj1 (stopDebugging_terminated fresh_session
                  (world_of [Resolve (JBool true); Resolve JUndefined] []))).
  reflexivity.
Defined.

(** C4 as worded fails when the teardown call fails: a listener is found,
    the delete-listener call is rejected, and no event is fired. *)
Lemma stopDebugging_teardown_fails_counterexample :
  ~ terminated_once fresh_session
      (world_of [Resolve (JBool true); Reject network_error] []).
Proof.
  unfold terminated_once. vm_compute. discriminate.
Qed.

(** However it ends, [stopDebugging] changes [active] and nothing else. *)
Lemma stopDebugging_session (b : bool) (st : Session) (w : World) :
  session (stopDebugging b st w) = set_active false st.
Proof. on_fields st w. destruct b; crunch; reflexivity. Qed.

(** Every remote call of [stopDebugging] is issued with [active] false. *)
Lemma stopDebugging_calls_inactive (b : bool) (st : Session) (w : World) :
  forall c s, In (ARemote c s) (trace (world (stopDebugging b st w))) ->
              In (ARemote c s) (trace w) \/ active s = false.
Proof.
  intros c s. on_fields st w. destruct b; crunch; in_trace.
Qed.

(** C10, as the code has it.  [stopDebugging] ends, however it ends, in
    the session it started from with [active] set to false and every other
    field ([attached] and [killed] among them) as it was; each remote call it
    issues is issued with [active] already false; and when the method throws
    (the guard refuses the probe, the classification of a probe error throws,
    or the teardown call fails), [active] is false all the same and no event
    has been fired.  A rejected probe call does not make the method throw:
    on a live instance, when its error is not classified as a conflict, the
    method completes and fires the terminated event; when it is, the method
    goes on to the teardown call. *)
Theorem stopDebugging_frame (b : bool) (st : Session) (w : World) :
  let x := stopDebugging b st w in
  session x = set_active false st /\
  (forall c s, In (ARemote c s) (trace (world x)) ->
               In (ARemote c s) (trace w) \/ active s = false) /\
  (forall e, outcome x = Throw e -> fired (trace (world x)) = fired (trace w)) /\
  (forall e rest,
      b = true -> killed st = false -> script w = Reject e :: rest ->
      (isConflictError e = Val false ->
       outcome x = Normal tt /\
       fired (trace (world x)) = fired (trace w) ++ [TerminatedEvent]) /\
      (isConflictError e = Val true ->
       calls (trace (world x)) =
       calls (trace w) ++ [user_listeners_call st; delete_call st])).
Proof.
  cbv zeta. split; [|split; [|split]].
  - apply stopDebugging_session.
  - apply stopDebugging_calls_inactive.
  - intros e He. rewrite stopDebugging_fires, He. apply app_nil_r.
  - intros e rest -> Hk Hs. split.
    + intros Hc.
      assert (Hn : outcome (stopDebugging true st w) = Normal tt).
      { apply (stopDebugging_no_listener st w (Reject e) rest Hk Hs). exact Hc. }
      split; [exact Hn|]. rewrite stopDebugging_fires, Hn. reflexivity.
    + intros Hc. on_fields st w. run. rewrite Hc.
      destruct rest as [|[v|e'] rest']; tidy_lists; reflexivity.
Qed.

Lemma stopDebugging_frame_witness :
  fired (trace (world (stopDebugging true fresh_session
                         (world_of [Resolve (JBool true); Reject network_error] []))))
  = [].
Proof.
  apply (proj1 (proj2 (proj2 (stopDebugging_frame true fresh_session
                  (world_of [Resolve (JBool true); Reject network_error] []))))
           network_error).
  reflexivity.
Defined.

(** C10 as worded fails when the listener probe is what fails: the
    rejection is absorbed by [.catch(isConflictError)], the method completes,
    and the terminated event is fired. *)
Lemma stopDebugging_probe_rejected_counterexample :
  outcome (stopDebugging true fresh_session (world_of [Reject network_error] []))
  = Normal tt /\
  ~ probe_failure_as_specified fresh_session (world_of [Reject network_error] []).
Proof.
  split; [reflexivity|].
  intros Hspec. destruct (Hspec network_error [] eq_refl) as [_ Hfired].
  vm_compute in Hfired. discriminate Hfired.
Qed.

(** ** Reaching a breakpoint *)

Arguments stopDebugging : simpl never.

(** With [attached] set, [onBreakpointReached] never issues an attach
    call. *)
Lemma onBreakpointReached_attached_skips (debuggee : JsVal) (st : Session) (w : World) :
  attached st = true ->
  forall c s, In (ARemote c s) (trace (world (onBreakpointReached debuggee st w))) ->
              In (ARemote c s) (trace w) \/ is_attach c = false.
Proof.
  intros Ha c s. on_fields st w. crunch; in_trace.
Qed.

(** [stopDebugging] leaves [attached] alone. *)
Lemma stopDebugging_attached (b : bool) (st : Session) (w : World) :
  attached (session (stopDebugging b st w)) = attached st.
Proof.
  rewrite stopDebugging_session. destruct st; reflexivity.
Qed.

(** *** No attach call once attached or killed *)

Lemma attach_free_then {A B} (m : M A) (f : A -> M B) (g : JsVal -> M B) :
  attach_free m -> (forall a, attach_free (f a)) -> (forall e, attach_free (g e)) ->
  attach_free (then_ m f g).
Proof.
  intros Hm Hf Hg st w Hst. unfold then_.
  specialize (Hm st w Hst). destruct (m st w) as [[r s1] w1].
  cbn in Hm. destruct Hm as [Hs1 Ht1].
  destruct r as [a|e| |]; [| |split; assumption|split; assumption].
  - destruct (Hf a s1 w1 Hs1) as [Hs2 Ht2]. split; [exact Hs2|].
    intros c s Hin. destruct (Ht2 c s Hin) as [Hin1|Hna]; auto.
  - destruct (Hg e s1 w1 Hs1) as [Hs2 Ht2]. split; [exact Hs2|].
    intros c s Hin. destruct (Ht2 c s Hin) as [Hin1|Hna]; auto.
Qed.

Lemma attach_free_ret {A} (a : A) : attach_free (ret a).
Proof. intros st w Hst. split; [exact Hst | auto]. Qed.

Lemma attach_free_throw {A} (e : JsVal) : attach_free (@throw A e).
Proof. intros st w Hst. split; [exact Hst | auto]. Qed.

Lemma attach_free_bind {A B} (m : M A) (k : A -> M B) :
  attach_free m -> (forall a, attach_free (k a)) -> attach_free (bind m k).
Proof.
  intros Hm Hk. apply (attach_free_then m k throw); auto using @attach_free_throw.
Qed.

Lemma attach_free_try_catch {A} (m : M A) (h : JsVal -> M A) :
  attach_free m -> (forall e, attach_free (h e)) -> attach_free (try_catch m h).
Proof. intros Hm Hh. apply attach_free_then; auto using @attach_free_ret. Qed.

Lemma attach_free_lift {A} (r : Result A) : attach_free (lift r).
Proof. destruct r; [apply attach_free_ret | apply attach_free_throw]. Qed.

Lemma attach_free_get {A} (f : Session -> A) : attach_free (get f).
Proof. intros st w Hst. split; [exact Hst | auto]. Qed.

Lemma attach_free_set_active (b : bool) : attach_free (modify (set_active b)).
Proof. intros st w Hst. split; [destruct st; exact Hst | auto]. Qed.

Lemma attach_free_remote (c : RemoteCall) : is_attach c = false -> attach_free (remote c).
Proof.
  intros Hc st w Hst. split.
  - unfold remote. destruct (script w) as [|[v|e] rest]; exact Hst.
  - intros c' s'. unfold remote.
    destruct (script w) as [|[v|e] rest]; cbn; rewrite in_app_iff; cbn;
      (intros [Hin|[Heq|[]]]; [auto | injection Heq as <- <-; auto]).
Qed.

Lemma attach_free_remote_of (c : Session -> RemoteCall) :
  (forall s, is_attach (c s) = false) -> attach_free (remote_of c).
Proof. intros Hc st w. apply attach_free_remote, Hc. Qed.

Lemma attach_free_Confirmator (message : string) : attach_free (Confirmator message).
Proof.
  intros st w Hst. split.
  - unfold Confirmator. destruct (answers w); exact Hst.
  - intros c s. unfold Confirmator.
    destruct (answers w); cbn; rewrite in_app_iff; cbn;
      (intros [Hin|[Heq|[]]]; [auto | discriminate Heq]).
Qed.

Lemma attach_free_ShowError (message : JsVal) : attach_free (ShowError message).
Proof.
  intros st w Hst. split; [exact Hst|].
  intros c s. cbn. rewrite in_app_iff. cbn.
  intros [Hin|[Heq|[]]]; [auto | discriminate Heq].
Qed.

Lemma attach_free_fire (e : DebugEvent) : attach_free (fire e).
Proof.
  intros st w Hst. split; [exact Hst|].
  intros c s. cbn. rewrite in_app_iff. cbn.
  intros [Hin|[Heq|[]]]; [auto | discriminate Heq].
Qed.

Lemma attach_free_detached {A} (m : M A) : attach_free m -> attach_free (detached m).
Proof.
  intros Hm st w Hst. specialize (Hm st w Hst). unfold detached.
  destruct (m st w) as [[r s1] w1]. exact Hm.
Qed.

Lemma attach_free_also {A} (m : M A) : attach_free m -> attach_free (also (fun s => s) m).
Proof.
  intros Hm st w Hst. specialize (Hm st w Hst). unfold also.
  destruct (m st w) as [[r s1] w1]. exact Hm.
Qed.

Create HintDb attach_free.
#[local] Hint Resolve @attach_free_ret @attach_free_throw @attach_free_bind
  @attach_free_try_catch @attach_free_then @attach_free_lift @attach_free_get
  attach_free_set_active attach_free_remote attach_free_remote_of
  attach_free_Confirmator attach_free_ShowError attach_free_fire
  @attach_free_detached @attach_free_also : attach_free.

Ltac attach_free_step :=
  first
    [ progress (intros)
    | match goal with
      | |- attach_free (if ?b then _ else _) => destruct b
      | |- attach_free (match ?x with _ => _ end) => destruct x
      | |- is_attach _ = false => reflexivity
      end
    | solve [eauto with attach_free]
    | apply attach_free_bind
    | apply attach_free_try_catch
    | apply attach_free_then
    | apply attach_free_detached
    | apply attach_free_also
    | apply attach_free_remote_of
    | apply attach_free_remote ].

Ltac attach_free_auto := repeat attach_free_step.

Lemma attach_free_client : attach_free client.
Proof. unfold client. attach_free_auto. Qed.

Lemma attach_free_stopListener (norestart : bool) : attach_free (stopListener norestart).
Proof. unfold stopListener. attach_free_auto. Qed.

Lemma attach_free_debuggerListen : attach_free debuggerListen.
Proof. unfold debuggerListen. pose proof attach_free_client. attach_free_auto. Qed.

Lemma attach_free_hasConflict : attach_free hasConflict.
Proof.
  pose proof attach_free_client.
  unfold hasConflict, hasConflict_sched, hasConflict_first, hasConflict_second.
  attach_free_auto.
Qed.

Lemma attach_free_stopDebugging (b : bool) : attach_free (stopDebugging b).
Proof.
  pose proof attach_free_client. pose proof attach_free_stopListener.
  unfold stopDebugging, void. attach_free_auto.
Qed.

(** The one place that issues an attach call: it is skipped when
    [attached] is set and refused by the guard when [killed] is. *)
Lemma attach_free_onBreakpointReached (debuggee : JsVal) :
  attach_free (onBreakpointReached debuggee).
Proof.
  intros st w Hst. split.
  - destruct Hst as [Ha|Hk]; [left|right].
    + on_fields st w. crunch; reflexivity.
    + on_fields st w. crunch; reflexivity.
  - intros c s. destruct Hst as [Ha|Hk].
    + apply onBreakpointReached_attached_skips, Ha.
    + rewrite (proj1 (proj2 (onBreakpointReached_refuses debuggee st w Hk))). auto.
Qed.

(** Whatever state it starts in, [logout] ends killed and issues no attach
    call. *)
Lemma logout_kills (st : Session) (w : World) :
  killed (session (logout st w)) = true /\
  forall c s, In (ARemote c s) (trace (world (logout st w))) ->
              In (ARemote c s) (trace w) \/ is_attach c = false.
Proof.
  split.
  - on_fields st w. crunch; reflexivity.
  - intros c s. on_fields st w. crunch; in_trace.
Qed.

Lemma attach_free_logout : attach_free logout.
Proof.
  intros st w _. destruct (logout_kills st w) as [Hk Ht].
  split; [right; exact Hk | exact Ht].
Qed.

Section Later.

Context `{Imports}.

Lemma attach_free_mainLoop_turn : attach_free mainLoop_turn.
Proof.
  pose proof attach_free_debuggerListen. pose proof attach_free_onBreakpointReached.
  pose proof attach_free_stopDebugging.
  unfold mainLoop_turn. attach_free_auto.
Qed.

Lemma attach_free_mainLoop_while (fuel : nat) : attach_free (mainLoop_while fuel).
Proof.
  pose proof attach_free_mainLoop_turn.
  induction fuel as [|fuel IH]; cbn [mainLoop_while].
  - apply attach_free_bind; [apply attach_free_get|].
    intros [|]; [|apply attach_free_ret].
    intros st w Hst. split; [exact Hst | auto].
  - attach_free_auto.
Qed.

Lemma attach_free_mainLoop (fuel : nat) : attach_free (mainLoop fuel).
Proof.
  pose proof (attach_free_mainLoop_while fuel). unfold mainLoop. attach_free_auto.
Qed.

Lemma attach_free_fireMainLoop (fuel : nat) : attach_free (fireMainLoop fuel).
Proof.
  pose proof (attach_free_mainLoop fuel). pose proof attach_free_hasConflict.
  pose proof attach_free_stopListener.
  unfold fireMainLoop. attach_free_auto.
Qed.

Lemma attach_free_invoke (c : PublicCall) : attach_free (invoke c).
Proof.
  destruct c as [fuel|b|]; cbn [invoke].
  - pose proof (attach_free_fireMainLoop fuel). unfold void. attach_free_auto.
  - apply attach_free_stopDebugging.
  - apply attach_free_logout.
Qed.

(** The invariant: once no attach call can be issued, none ever can. *)
Lemma later_no_more_attach (st st' : Session) :
  no_more_attach st -> later st st' -> no_more_attach st'.
Proof.
  intros Hst Hlater. induction Hlater as [|st' c w Hlater IH]; [exact Hst|].
  apply (attach_free_invoke c st' w IH).
Qed.

(** C9.  On a live instance, let the save-settings call fail, either with
    [attached] already set or right after a successful attach call.  Then
    the save-settings call was issued with [attached] already true;
    [onBreakpointReached] goes on exactly as [stopDebugging(true)] does from
    there, so [attached] is true at the end and no stopped event is fired.
    From then on no attach call is issued: not by a further
    [onBreakpointReached] on the resulting session, and not by any public
    method called on it later, in whatever worlds these run. *)
Theorem onBreakpointReached_saveSettings_fails (debuggee : JsVal) (st : Session)
    (w w1 : World) (e : JsVal) :
  killed st = false ->
  saveSettings_fails debuggee st w w1 e ->
  let x := onBreakpointReached debuggee st w in
  x = stopDebugging true (set_attached true st) w1 /\
  attached (session x) = true /\
  (forall reason thread,
      In (StoppedEvent reason thread) (fired (trace (world x))) ->
      In (StoppedEvent reason thread) (fired (trace w))) /\
  (forall debuggee' w' c s,
      In (ARemote c s) (trace (world (onBreakpointReached debuggee' (session x) w'))) ->
      In (ARemote c s) (trace w') \/ is_attach c = false) /\
  (forall st' call w' c s,
      later (session x) st' ->
      In (ARemote c s) (trace (world (invoke call st' w'))) ->
      In (ARemote c s) (trace w') \/ is_attach c = false).
Proof.
  intros Hk Hfail. cbv zeta.
  assert (Hrun : onBreakpointReached debuggee st w
                 = stopDebugging true (set_attached true st) w1).
  { destruct Hfail as [(Ha & rest & Hs & ->) | (Ha & id & v & rest & Hid & Hs & ->)];
      on_fields st w.
    - reflexivity.
    - unfold onBreakpointReached, try_catch, then_, bind, get, client, lift, void.
      cbn. rewrite Hid. cbn. f_equal.
      unfold with_script, record. cbn. rewrite <- app_assoc. reflexivity. }
  assert (Hatt : attached (session (onBreakpointReached debuggee st w)) = true).
  { rewrite Hrun, stopDebugging_attached. destruct st; reflexivity. }
  split; [exact Hrun|]. split; [exact Hatt|]. split; [|split].
  - intros reason thread. rewrite Hrun, stopDebugging_fires.
    assert (Hw1 : fired (trace w1) = fired (trace w)).
    { destruct Hfail as [(_ & rest & _ & ->) | (_ & id & v & rest & _ & _ & ->)];
        cbn; rewrite fired_app; cbn; apply app_nil_r. }
    rewrite Hw1, in_app_iff.
    intros [Hin | Hin]; [exact Hin|].
    destruct (outcome (stopDebugging true (set_attached true st) w1));
      cbn in Hin; intuition discriminate.
  - intros debuggee' w'. apply onBreakpointReached_attached_skips, Hatt.
  - intros st' call w' c s Hlater.
    apply (attach_free_invoke call st' w').
    apply (later_no_more_attach (session (onBreakpointReached debuggee st w)) st');
      [left; exact Hatt | exact Hlater].
Qed.

End Later.

Lemma onBreakpointReached_saveSettings_fails_witness :
  attached (session (onBreakpointReached (JObj [("DEBUGGEE_ID", JStr "D123")])
                       fresh_session
                       (world_of [Resolve JUndefined; Reject network_error;
                                  Resolve JUndefined] [])))
  = true.
Proof.
  refine (proj1 (proj2 (@onBreakpointReached_saveSettings_fails example_imports
            (JObj [("DEBUGGEE_ID", JStr "D123")]) fresh_session
            (world_of [Resolve JUndefined; Reject network_error; Resolve JUndefined] [])
            _ network_error eq_refl _))).
  right. split; [reflexivity|].
  exists (JStr "D123"), JUndefined, [Resolve JUndefined].
  split; [reflexivity|]. split; reflexivity.
Defined.

(** What stands behind an "other" result: a live instance and a first
    probe that failed with a conflict classification, and nothing else. *)
Lemma hasConflict_other (st : Session) (w : World) (m : JsVal) (st1 : Session)
    (w1 : World) :
  hasConflict st w = (Normal (WithOther m), st1, w1) ->
  st1 = st /\
  exists e rest,
    killed st = false /\
    script w = Reject e :: rest /\
    isConflictError e = Val true /\
    m = conflictText e /\
    w1 = mkWorld rest (answers w) (loggedin w) (trace w ++ [ARemote (listeners_call st) st]).
Proof.
  on_fields st w. crunch; intros Heq; try discriminate Heq.
  injection Heq as <- <- <-. split; [reflexivity|].
  eexists _, _. repeat split; eauto.
Qed.

(** ** Message texts *)

Lemma prefix_append (m s : string) : String.prefix m (m +:+ s) = true.
Proof.
  induction m as [|a m IH]; simpl.
  - destruct s; reflexivity.
  - destruct (Ascii.ascii_dec a a) as [_|Hne]; [exact IH | contradiction].
Qed.

Lemma contains_prefix (pat s : string) : String.prefix pat s = true -> Js.contains pat s = true.
Proof. intros Hp. destruct s; cbn [Js.contains]; rewrite Hp; reflexivity. Qed.

Lemma contains_empty (s : string) : Js.contains "" s = true.
Proof. apply contains_prefix. destruct s; reflexivity. Qed.

(** The take-over prompt built from a string message contains it. *)
Lemma takeover_prompt_contains (m : string) :
  Js.contains m (Js.to_string (Js.or_else (JStr m) (JStr "Debugger conflict detected"))
                 +:+ " Take over debugging?") = true.
Proof.
  destruct m as [|a m].
  - apply contains_empty.
  - apply contains_prefix. cbn [Js.or_else Js.truthy String.eqb negb Js.to_string].
    apply prefix_append.
Qed.

(** ** Starting and running the loop *)

Section Loop.

Context `{Imports}.

(** C8.  When [hasConflict] attributes the conflict to "other" with a
    message text [m] and the user answers the prompt with [false],
    [fireMainLoop] returns [false].  All it has done by then is the one
    probe call and the confirmation prompt, and the prompt contains [m]:
    no listen call and no delete-listener call was issued. *)
Theorem fireMainLoop_declined (fuel : nat) (st st1 : Session) (w w1 : World)
    (m : string) (more : list bool) :
  hasConflict st w = (Normal (WithOther (JStr m)), st1, w1) ->
  answers w1 = false :: more ->
  let x := fireMainLoop fuel st w in
  outcome x = Normal false /\
  (exists prompt,
      trace (world x) = trace w ++ [ARemote (listeners_call st) st; AConfirm prompt] /\
      Js.contains m prompt = true) /\
  calls (trace (world x)) = calls (trace w) ++ [listeners_call st].
Proof.
  intros Hprobe Hans. cbv zeta.
  destruct (hasConflict_other st w (JStr m) st1 w1 Hprobe)
    as (_ & e & rest & _ & _ & _ & _ & Hw1).
  unfold fireMainLoop, try_catch, then_, bind. rewrite Hprobe.
  unfold Confirmator. rewrite Hans. cbn.
  rewrite Hw1. cbn. rewrite <- app_assoc. cbn.
  repeat split.
  - eexists. split; [reflexivity|]. apply takeover_prompt_contains.
  - rewrite calls_app. reflexivity.
Qed.

Lemma mainLoop_while_inactive (fuel : nat) (st : Session) (w : World) :
  active st = false -> mainLoop_while fuel st w = (Normal tt, st, w).
Proof.
  intros Ha. destruct fuel; unfold mainLoop_while, bind, get; rewrite Ha; reflexivity.
Qed.

Lemma mainLoop_while_step (fuel : nat) (st : Session) (w : World) :
  active st = true ->
  mainLoop_while (S fuel) st w =
  (c <- mainLoop_turn ;;
   match c with
   | Continue => mainLoop_while fuel
   | Break | Return => ret tt
   end) st w.
Proof.
  intros Ha. cbn [mainLoop_while]. unfold bind at 1, get. rewrite Ha. reflexivity.
Qed.



End Loop.

Lemma fireMainLoop_declined_witness :
  outcome (@fireMainLoop example_imports 3 fresh_session
             (world_of [Reject conflict_error] [false]))
  = Normal false.
Proof.
  refine (proj1 (@fireMainLoop_declined example_imports 3 fresh_session _
                   (world_of [Reject conflict_error] [false]) _
                   "held by BOB" [] eq_refl eq_refl)).
Defined.


(** ** Logging out *)

(** On a live instance the promise [stop] of [logout] is fulfilled once the
    first probe settles, however it settles: a second probe is refused by
    the guard, since [killed] is set by then, and that failure is ignored. *)
Lemma logout_stop_first_probe (st : Session) (w : World) (o : Outcome)
    (rest : list Outcome) :
  killed st = false ->
  script w = o :: rest ->
  logout_stop st w =
  (Normal tt, set_killed true st,
   mkWorld rest (answers w) (loggedin w) (trace w ++ [ARemote (listeners_call st) st])).
Proof.
  intros Hk Hs. on_fields st w. crunch; reflexivity.
Qed.

(** C2 fails on the code.  On a live, logged-in instance, whatever the
    probe yields, when [dropSession] succeeds and [client.logout()] is
    rejected with [e], [logout] itself is rejected, and with [e] if the
    clone's logout succeeds: the handler [ignore] passed to
    [.then(logout, ignore)] does not see a rejection raised by [logout]. *)
Theorem logout_rejects (st : Session) (w : World) (o1 o4 : Outcome) (v e : JsVal)
    (rest : list Outcome) :
  killed st = false ->
  loggedin w = true ->
  script w = o1 :: Resolve v :: Reject e :: o4 :: rest ->
  exists e', outcome (logout st w) = Throw e' /\ (fulfilled o4 -> e' = e).
Proof.
  intros Hk Hl Hs. on_fields st w. crunch; eauto.
Qed.

Lemma logout_rejects_witness :
  exists e',
    outcome (logout fresh_session
               (world_of [Resolve JUndefined; Resolve JUndefined;
                          Reject network_error; Resolve JUndefined] []))
    = Throw e' /\ (fulfilled (Resolve JUndefined) -> e' = network_error).
Proof.
  apply (logout_rejects fresh_session
           (world_of [Resolve JUndefined; Resolve JUndefined;
                      Reject network_error; Resolve JUndefined] [])
           (Resolve JUndefined) (Resolve JUndefined) JUndefined network_error []);
    reflexivity.
Defined.

(** Up to the two final logout calls every failure is swallowed: [logout]
    is rejected only after it has issued [client.logout()]. *)
Lemma logout_rejects_only_late (st : Session) (w : World) (e : JsVal) :
  outcome (logout st w) = Throw e ->
  In Logout (calls (trace (world (logout st w)))).
Proof.
  on_fields st w. crunch; intros Hthrow; try discriminate Hthrow;
    rewrite !calls_app, !in_app_iff; simpl; auto 10.
Qed.

(** * Further properties of the listener *)

(** ** The arbitration probe, continued *)

(** [hasConflict] reads the session and never writes it. *)
Lemma hasConflict_session (st : Session) (w : World) :
  session (hasConflict st w) = st.
Proof. on_fields st w. crunch; reflexivity. Qed.

(** X1.  A probe failure that is not a conflict is rethrown as it is: from
    the first probe after one call, from the second probe after two.  The
    session is left as it was. *)
Theorem hasConflict_rethrows (st : Session) (w : World) (e : JsVal) :
  killed st = false ->
  isConflictError e = Val false ->
  (forall rest,
      script w = Reject e :: rest ->
      hasConflict st w =
      (Throw e, st, after_calls rest [ARemote (listeners_call st) st] w)) /\
  (forall v rest,
      script w = Resolve v :: Reject e :: rest ->
      hasConflict st w =
      (Throw e, st,
       after_calls rest [ARemote (listeners_call st) st;
                         ARemote (listeners_call st) st] w)).
Proof.
  intros Hk He. split.
  - intros rest Hs. on_fields st w. run. rewrite He. reflexivity.
  - intros v rest Hs. on_fields st w. run. rewrite He.
    unfold after_calls. cbn. rewrite <- app_assoc. reflexivity.
Qed.

Lemma hasConflict_rethrows_witness :
  outcome (hasConflict fresh_session (world_of [Reject network_error] []))
  = Throw network_error.
Proof.
  rewrite (proj1 (hasConflict_rethrows fresh_session
                    (world_of [Reject network_error] []) network_error
                    eq_refl eq_refl) [] eq_refl).
  reflexivity.
Defined.

(** ** Stopping, continued *)

(** X2.  On a live instance, when the probe of [stopDebugging(true)]
    reports a listener, the method issues exactly two calls: the probe, which
    always asks for the user-mode listener, and the delete call, which names
    the session's own mode. *)
Theorem stopDebugging_probe_then_delete (st : Session) (w : World) (o o' : Outcome)
    (rest : list Outcome) :
  killed st = false ->
  script w = o :: o' :: rest ->
  listener_found o = Val true ->
  calls (trace (world (stopDebugging true st w))) =
  calls (trace w) ++
  [DebuggerListeners ModeUser (terminalId st) (ideId st) (username st);
   DebuggerDeleteListener (mode st) (terminalId st) (ideId st) (username st)].
Proof.
  intros Hk Hs Hf. on_fields st w. destruct o as [v|e]; cbn in Hf.
  - injection Hf as Hf. run. rewrite Hf. destruct o'; tidy_lists; reflexivity.
  - run. rewrite Hf. destruct o'; tidy_lists; reflexivity.
Qed.

Lemma stopDebugging_probe_then_delete_witness :
  calls (trace (world (stopDebugging true
                         (mkSession "dev100" ModeTerminal "TERM01" "IDE01" "ALICE" 1
                                    true false false)
                         (world_of [Resolve (JBool true); Resolve JUndefined] [])))) =
  [DebuggerListeners ModeUser "TERM01" "IDE01" "ALICE";
   DebuggerDeleteListener ModeTerminal "TERM01" "IDE01" "ALICE"].
Proof.
  apply (stopDebugging_probe_then_delete
           (mkSession "dev100" ModeTerminal "TERM01" "IDE01" "ALICE" 1 true false false)
           (world_of [Resolve (JBool true); Resolve JUndefined] [])
           (Resolve (JBool true)) (Resolve JUndefined) []); reflexivity.
Defined.

(** ** Reaching a breakpoint, continued *)

(** X3.  A clean stop.  On a live instance whose attach step goes through
    (the session is attached already, or the debuggee has an id and the
    attach call succeeds) and whose save-settings call succeeds,
    [onBreakpointReached] completes, sets [attached] and changes nothing
    else, and fires exactly one stopped event, "breakpoint" on thread 1,
    after the calls. *)
Theorem onBreakpointReached_stops (debuggee : JsVal) (st : Session) (w : World)
    (v : JsVal) (rest : list Outcome) :
  killed st = false ->
  (attached st = true ->
   script w = Resolve v :: rest ->
   onBreakpointReached debuggee st w =
   (Normal tt, st,
    after_calls rest [ARemote DebuggerSaveSettings st;
                      AFire (StoppedEvent "breakpoint" 1)] w)) /\
  (forall id v',
      attached st = false ->
      Js.member "DEBUGGEE_ID" debuggee = Val id ->
      script w = Resolve v' :: Resolve v :: rest ->
      onBreakpointReached debuggee st w =
      (Normal tt, set_attached true st,
       after_calls rest [ARemote (attach_call id st) st;
                         ARemote DebuggerSaveSettings (set_attached true st);
                         AFire (StoppedEvent "breakpoint" 1)] w)).
Proof.
  intros Hk. split.
  - intros Ha Hs. on_fields st w. run.
    unfold after_calls. cbn. rewrite <- !app_assoc. reflexivity.
  - intros id v' Ha Hid Hs. on_fields st w. run. rewrite Hid.
    unfold after_calls. cbn. rewrite <- !app_assoc. reflexivity.
Qed.

Lemma onBreakpointReached_stops_witness :
  fired (trace (world (onBreakpointReached (JObj [("DEBUGGEE_ID", JStr "D123")])
                         fresh_session
                         (world_of [Resolve JUndefined; Resolve JUndefined] []))))
  = [StoppedEvent "breakpoint" 1].
Proof.
  rewrite (proj2 (onBreakpointReached_stops (JObj [("DEBUGGEE_ID", JStr "D123")])
                    fresh_session
                    (world_of [Resolve JUndefined; Resolve JUndefined] [])
                    JUndefined [] eq_refl)
             (JStr "D123") JUndefined eq_refl eq_refl eq_refl).
  reflexivity.
Defined.

(** X4.  A failed attach.  On a live, unattached instance, when the attach
    call is rejected, [onBreakpointReached] goes on exactly as
    [stopDebugging(true)] does after that one call: [attached] stays false,
    and no save-settings call is issued and no stopped event fired. *)
Theorem onBreakpointReached_attach_fails (debuggee : JsVal) (st : Session) (w : World)
    (id e : JsVal) (rest : list Outcome) :
  killed st = false ->
  attached st = false ->
  Js.member "DEBUGGEE_ID" debuggee = Val id ->
  script w = Reject e :: rest ->
  let x := onBreakpointReached debuggee st w in
  x = stopDebugging true st (after_calls rest [ARemote (attach_call id st) st] w) /\
  attached (session x) = false /\
  (forall c s, In (ARemote c s) (trace (world x)) ->
               In (ARemote c s) (trace w) \/ is_saveSettings c = false) /\
  (forall reason thread,
      In (StoppedEvent reason thread) (fired (trace (world x))) ->
      In (StoppedEvent reason thread) (fired (trace w))).
Proof.
  intros Hk Ha Hid Hs. cbv zeta.
  assert (Hrun : onBreakpointReached debuggee st w
                 = stopDebugging true st (after_calls rest [ARemote (attach_call id st) st] w)).
  { on_fields st w.
    unfold onBreakpointReached, try_catch, then_, bind, get, client, lift, void.
    cbn. rewrite Hid. reflexivity. }
  split; [exact Hrun|]. split; [|split].
  - rewrite Hrun, stopDebugging_attached. exact Ha.
  - intros c s. rewrite Hrun. clear Hrun. on_fields st w. crunch; in_trace.
  - intros reason thread. rewrite Hrun, stopDebugging_fires.
    unfold after_calls. cbn [trace]. rewrite fired_app, in_app_iff. cbn.
    rewrite app_nil_r.
    intros [Hin | Hin]; [exact Hin|].
    destruct (outcome (stopDebugging true st _)); cbn in Hin; intuition discriminate.
Qed.

Lemma onBreakpointReached_attach_fails_witness :
  attached (session (onBreakpointReached (JObj [("DEBUGGEE_ID", JStr "D123")])
                       fresh_session
                       (world_of [Reject network_error; Resolve JUndefined] [])))
  = false.
Proof.
  apply (proj1 (proj2 (onBreakpointReached_attach_fails
            (JObj [("DEBUGGEE_ID", JStr "D123")]) fresh_session
            (world_of [Reject network_error; Resolve JUndefined] [])
            (JStr "D123") network_error [Resolve JUndefined]
            eq_refl eq_refl eq_refl eq_refl))).
Defined.

(** ** Logging out, continued *)

(** X5.  [logout] never tears the listener down.  Its delete-listener call
    waits for a "myself" result of the probe, which needs the second probe;
    by then [killed] is set and the guard refuses that probe.  So in every
    world the calls [logout] issues hold no delete-listener call and at most
    one probe. *)
Theorem logout_never_deletes (st : Session) (w : World) :
  exists cs,
    calls (trace (world (logout st w))) = calls (trace w) ++ cs /\
    List.filter is_delete cs = [] /\
    (List.filter is_probe cs = [] \/ List.filter is_probe cs = [listeners_call st]).
Proof.
  on_fields st w. crunch; tidy_lists;
    first [ exists []; rewrite app_nil_r; split; [reflexivity | split; [reflexivity | left; reflexivity]]
          | eexists; split; [reflexivity | split; [reflexivity | right; reflexivity]] ].
Qed.

(** X6.  However it ends, [logout] leaves the instance inactive, detached
    and killed with its other fields untouched; and a [logout] on a killed
    instance completes at once without doing anything, so logging out twice
    is logging out once. *)
Theorem logout_final_and_idempotent (st : Session) (w w' : World) :
  session (logout st w) = set_killed true (set_attached false (set_active false st)) /\
  logout (session (logout st w)) w' = (Normal tt, session (logout st w), w').
Proof.
  assert (Hfinal : session (logout st w)
                   = set_killed true (set_attached false (set_active false st))).
  { on_fields st w. crunch; reflexivity. }
  split; [exact Hfinal|]. rewrite Hfinal. destruct st; reflexivity.
Qed.

(** X7.  With a client that is not logged in, [logout] is never rejected,
    and all it does is the one probe. *)
Theorem logout_not_logged_in (st : Session) (w : World) :
  loggedin w = false ->
  killed st = false ->
  (forall e, outcome (logout st w) <> Throw e) /\
  trace (world (logout st w)) = trace w ++ [ARemote (listeners_call st) (set_attached false (set_active false st))].
Proof.
  intros Hl Hk. on_fields st w. crunch; split; solve [reflexivity | intros ? Hthrow; discriminate Hthrow].
Qed.

Lemma logout_not_logged_in_witness :
  trace (world (logout fresh_session (mkWorld [Reject network_error] [] false [])))
  = [ARemote (listeners_call fresh_session) fresh_session].
Proof.
  apply (proj2 (logout_not_logged_in fresh_session
                  (mkWorld [Reject network_error] [] false []) eq_refl eq_refl)).
Defined.

(** ** Starting the loop, continued *)

Arguments mainLoop : simpl never.

(** The probe issues no listen call. *)
Lemma hasConflict_no_listen (st : Session) (w : World) :
  forall c s, In (ARemote c s) (trace (world (hasConflict st w))) ->
              In (ARemote c s) (trace w) \/ is_listen c = false.
Proof. intros c s. on_fields st w. crunch; in_trace. Qed.

Ltac absurd_outcome :=
  intros;
  first [ congruence
        | match goal with H : _ = _ |- _ => discriminate H end ].

(** Evaluates the start-up code around a loop run that stays folded. *)
Ltac start_run :=
  cbv -[mainLoop In app is_listen caughtToString String.append Js.to_string
        Js.or_else].

(** The probe has no loop to run out of fuel in. *)
Lemma hasConflict_fuel_free (st : Session) (w : World) :
  outcome (hasConflict st w) <> OutOfFuel.
Proof. on_fields st w. crunch; discriminate. Qed.

Section Starting.

Context `{Imports}.

(** X8.  [fireMainLoop] is never rejected and never runs out of fuel: what
    goes wrong ends in [false].  And [false] means that no loop was started:
    no listen call has been issued. *)
Theorem fireMainLoop_false_no_listen (fuel : nat) (st : Session) (w : World) :
  let x := fireMainLoop fuel st w in
  (forall e, outcome x <> Throw e) /\
  outcome x <> OutOfFuel /\
  (outcome x = Normal false ->
   forall c s, In (ARemote c s) (trace (world x)) ->
               In (ARemote c s) (trace w) \/ is_listen c = false).
Proof.
  cbv zeta. pose proof (hasConflict_no_listen st w) as Hprobe.
  pose proof (hasConflict_fuel_free st w) as Hfuel.
  unfold fireMainLoop, try_catch, then_, bind.
  destruct (hasConflict st w) as [[r s1] [sc an li tr]]. cbn in Hprobe, Hfuel.
  destruct r as [[|message|message]|e| |]; start_run.
  - destruct (mainLoop fuel _ _) as [[r' s2] w2].
    start_run. repeat split; absurd_outcome.
  - destruct an as [|[|] more]; start_run.
    + repeat split; absurd_outcome.
    + destruct sc as [|[v|e] rest]; start_run.
      * repeat split; absurd_outcome.
      * destruct (mainLoop fuel _ _) as [[r' s2] w2].
        start_run. repeat split; absurd_outcome.
      * repeat split; try absurd_outcome. intros _ c s.
        rewrite !in_app_iff. cbn. intros [[[Hin|[Heq|[]]]|[Heq|[]]]|[Heq|[]]];
          try discriminate Heq; [auto | injection Heq as <- _; auto].
    + repeat split; try absurd_outcome. intros _ c s.
      rewrite in_app_iff. cbn. intros [Hin|[Heq|[]]]; [auto | discriminate Heq].
  - destruct sc as [|[v|e] rest]; start_run.
    + repeat split; absurd_outcome.
    + destruct (mainLoop fuel _ _) as [[r' s2] w2].
      start_run. repeat split; absurd_outcome.
    + repeat split; try absurd_outcome. intros _ c s.
      rewrite !in_app_iff. cbn. intros [[Hin|[Heq|[]]]|[Heq|[]]];
        try discriminate Heq; [auto | injection Heq as <- _; auto].
  - repeat split; try absurd_outcome. intros _ c s.
    rewrite in_app_iff. cbn. intros [Hin|[Heq|[]]]; [auto | discriminate Heq].
  - repeat split; absurd_outcome.
  - contradiction.
Qed.

(** X9.  Taking over from oneself.  When the probe says "myself" and the
    delete-listener call succeeds, [fireMainLoop] asks nobody: it deletes the
    stale listener, marking the session inactive first, runs the loop from
    there and returns [true].  When that delete call fails, no loop is run:
    the error is shown and the result is [false]. *)
Theorem fireMainLoop_myself (fuel : nat) (st st1 : Session) (w w1 : World)
    (message : JsVal) (o : Outcome) (rest : list Outcome) :
  hasConflict st w = (Normal (WithMyself message), st1, w1) ->
  script w1 = o :: rest ->
  let w2 := after_calls rest [ARemote (delete_call st1) (set_active false st1)] w1 in
  fireMainLoop fuel st w =
  match o with
  | Resolve _ =>
      (Normal true,
       session (mainLoop fuel (set_active false st1) w2),
       world (mainLoop fuel (set_active false st1) w2))
  | Reject e =>
      (Normal false, set_active false st1,
       record (AShowError (JStr ("Error listening to debugger: " +:+ caughtToString e))) w2)
  end.
Proof.
  intros Hprobe Hs. cbv zeta.
  unfold fireMainLoop, try_catch, then_, bind. rewrite Hprobe.
  unfold stopListener, bind, modify, remote_of, remote. cbn. rewrite Hs.
  destruct o as [v|e]; cbn.
  - unfold detached, after_calls, with_script, record. cbn.
    destruct st1; cbn.
    destruct (mainLoop fuel _ _) as [[r' s2] w2]. reflexivity.
  - destruct st1; reflexivity.
Qed.

(** X10.  Taking over from another owner.  When the probe says "other", the
    user answers [true] and the delete-listener call succeeds,
    [fireMainLoop] deletes the listener without touching [active], runs the
    loop from there and returns [true]. *)
Theorem fireMainLoop_takeover (fuel : nat) (st st1 : Session) (w w1 : World)
    (message v : JsVal) (more : list bool) (rest : list Outcome) :
  hasConflict st w = (Normal (WithOther message), st1, w1) ->
  answers w1 = true :: more ->
  script w1 = Resolve v :: rest ->
  let prompt := Js.to_string (Js.or_else message (JStr "Debugger conflict detected"))
                +:+ " Take over debugging?" in
  let w2 := mkWorld rest more (loggedin w1)
                    (trace w1 ++ [AConfirm prompt; ARemote (delete_call st1) st1]) in
  fireMainLoop fuel st w =
  (Normal true, session (mainLoop fuel st1 w2), world (mainLoop fuel st1 w2)).
Proof.
  intros Hprobe Hans Hs. cbv zeta.
  unfold fireMainLoop, try_catch, then_, bind. rewrite Hprobe.
  unfold Confirmator. rewrite Hans. cbn.
  unfold stopListener, bind, ret, remote_of, remote. cbn. rewrite Hs. cbn.
  unfold detached, with_script, with_answers, record. cbn. rewrite <- app_assoc. cbn.
  destruct (mainLoop fuel _ _) as [[r' s2] w2]. reflexivity.
Qed.

(** The catch-all of [fireMainLoop]. *)
Lemma fireMainLoop_catch (fuel : nat) (st st1 : Session) (w w1 : World) (e : JsVal) :
  hasConflict st w = (Throw e, st1, w1) ->
  fireMainLoop fuel st w =
  (Normal false, st1,
   record (AShowError (JStr ("Error listening to debugger: " +:+ caughtToString e))) w1).
Proof.
  intros Hprobe. unfold fireMainLoop, try_catch, then_, bind. rewrite Hprobe.
  reflexivity.
Qed.

(** X11.  When the arbitration itself fails, nothing is started.  On a live
    instance, a probe call rejected with an error [e] that is not a conflict
    (the first probe, or the second after a first that succeeded) makes
    [fireMainLoop] show "Error listening to debugger: " followed by the text
    of [e] and return [false]: no question is asked, no listener deleted, no
    listen call issued, and the session is as before.  On a killed instance
    the same happens with the error of the guard, without any call. *)
Theorem fireMainLoop_arbitration_fails (fuel : nat) (st : Session) (w : World)
    (e : JsVal) :
  let shown x := AShowError (JStr ("Error listening to debugger: " +:+ caughtToString x)) in
  (killed st = false ->
   isConflictError e = Val false ->
   (forall rest,
       script w = Reject e :: rest ->
       fireMainLoop fuel st w =
       (Normal false, st,
        after_calls rest [ARemote (listeners_call st) st; shown e] w)) /\
   (forall v rest,
       script w = Resolve v :: Reject e :: rest ->
       fireMainLoop fuel st w =
       (Normal false, st,
        after_calls rest [ARemote (listeners_call st) st;
                          ARemote (listeners_call st) st; shown e] w))) /\
  (killed st = true ->
   fireMainLoop fuel st w = (Normal false, st, record (shown Disconnected) w)).
Proof.
  cbv zeta. split.
  - intros Hk He. split.
    + intros rest Hs.
      rewrite (fireMainLoop_catch fuel st st w
                 (after_calls rest [ARemote (listeners_call st) st] w) e).
      * unfold after_calls, record. cbn. rewrite <- app_assoc. reflexivity.
      * on_fields st w. run. rewrite He. reflexivity.
    + intros v rest Hs.
      rewrite (fireMainLoop_catch fuel st st w
                 (after_calls rest [ARemote (listeners_call st) st;
                                    ARemote (listeners_call st) st] w) e).
      * unfold after_calls, record. cbn. rewrite <- app_assoc. reflexivity.
      * on_fields st w. run. rewrite He.
        unfold after_calls. cbn. rewrite <- app_assoc. reflexivity.
  - intros Hk. rewrite (fireMainLoop_catch fuel st st w w Disconnected).
    + reflexivity.
    + on_fields st w. reflexivity.
Qed.

End Starting.

Lemma fireMainLoop_false_no_listen_witness :
  In (ARemote (listeners_call fresh_session) fresh_session)
     (trace (world_of [Reject network_error] [])) \/
  is_listen (listeners_call fresh_session) = false.
Proof.
  apply (proj2 (proj2 (@fireMainLoop_false_no_listen example_imports 2 fresh_session
                         (world_of [Reject network_error] [])))
           eq_refl (listeners_call fresh_session) fresh_session).
  left. reflexivity.
Defined.

Lemma fireMainLoop_myself_witness :
  outcome (@fireMainLoop example_imports 2 fresh_session
             (world_of [Resolve JUndefined; Reject conflict_error; Reject network_error] []))
  = Normal false.
Proof.
  rewrite (@fireMainLoop_myself example_imports 2 fresh_session fresh_session
             (world_of [Resolve JUndefined; Reject conflict_error; Reject network_error] [])
             (after_calls [Reject network_error]
                [ARemote (listeners_call fresh_session) fresh_session;
                 ARemote (listeners_call fresh_session) fresh_session]
                (world_of [Resolve JUndefined; Reject conflict_error; Reject network_error] []))
             (JStr "held by BOB") (Reject network_error) [] eq_refl eq_refl).
  reflexivity.
Defined.

Lemma fireMainLoop_takeover_witness :
  outcome (@fireMainLoop example_imports 2 fresh_session
             (world_of [Reject conflict_error; Resolve JUndefined] [true]))
  = Normal true.
Proof.
  rewrite (@fireMainLoop_takeover example_imports 2 fresh_session fresh_session
             (world_of [Reject conflict_error; Resolve JUndefined] [true])
             (mkWorld [Resolve JUndefined] [true] true
                [ARemote (listeners_call fresh_session) fresh_session])
             (JStr "held by BOB") JUndefined [] [] eq_refl eq_refl eq_refl).
  reflexivity.
Defined.

Lemma fireMainLoop_arbitration_fails_witness :
  @fireMainLoop example_imports 2 fresh_session (world_of [Reject network_error] [])
  = (Normal false, fresh_session,
     after_calls []
       [ARemote (listeners_call fresh_session) fresh_session;
        AShowError (JStr ("Error listening to debugger: "
                          +:+ @caughtToString example_imports network_error))]
       (world_of [Reject network_error] [])).
Proof.
  apply (proj1 (proj1 (@fireMainLoop_arbitration_fails example_imports 2 fresh_session
                         (world_of [Reject network_error] []) network_error)
                  eq_refl eq_refl) [] eq_refl).
Defined.

(** ** Turns of the loop *)

Arguments onBreakpointReached : simpl never.

(** Evaluates one turn of the loop, leaving what the turn hands over to
    ([onBreakpointReached], [stopDebugging]) folded. *)
Ltac run_turn :=
  cbv -[errorType isAdtError isDebugListenerError caughtToString conflictText
        Js.or_else Js.truthy Js.is_string app String.append
        onBreakpointReached stopDebugging Disconnected].

(** [onBreakpointReached] throws only out of [stopDebugging], which has
    marked the session inactive by then. *)
Lemma onBreakpointReached_throws_inactive (debuggee : JsVal) (st : Session) (w : World) :
  forall e, outcome (onBreakpointReached debuggee st w) = Throw e ->
            active (session (onBreakpointReached debuggee st w)) = false.
Proof.
  intros e. on_fields st w. crunch; intros Hthrow; try discriminate Hthrow; reflexivity.
Qed.

Section Turns.

Context `{Imports}.

(** X12.  Transient failures keep the loop listening.  While the session
    is active and live, a listen call that fails with an error that is not a
    structured ADT error is shown as "Error listening to debugger: ..." and
    the loop goes on; one that fails with an ADT error classified as
    attach-timeout is passed over in silence and the loop goes on.  In both
    cases the session is untouched. *)
Theorem mainLoop_transient_errors (fuel : nat) (st : Session) (w : World) (e : JsVal)
    (rest : list Outcome) :
  active st = true ->
  killed st = false ->
  script w = Reject e :: rest ->
  (isAdtError e = false ->
   mainLoop_while (S fuel) st w =
   mainLoop_while fuel st
     (after_calls rest
        [ARemote (listen_call st) st;
         AShowError (JStr ("Error listening to debugger: " +:+ caughtToString e))] w)) /\
  (isAdtError e = true ->
   errorType e = Val (JStr ATTACHTIMEOUT) ->
   mainLoop_while (S fuel) st w =
   mainLoop_while fuel st (after_calls rest [ARemote (listen_call st) st] w)).
Proof.
  intros Ha Hk Hs. rewrite (mainLoop_while_step fuel st w Ha). split.
  - intros Hadt. on_fields st w. unfold bind at 1. run_turn. rewrite Hadt.
    run_turn. unfold after_calls. cbn. rewrite <- app_assoc. reflexivity.
  - intros Hadt Hty. on_fields st w. unfold bind at 1. run_turn. rewrite Hadt, Hty.
    reflexivity.
Qed.

(** X13.  An ADT error of no known kind asks the user.  While the session
    is active and live, when the listen call fails with a structured ADT
    error whose sub-type is none of the conflict kinds and not
    attach-timeout, the loop asks "... Close session?".  On [true] the loop
    run ends exactly as [stopDebugging(true)] does; on [false] the loop goes
    on with the session untouched. *)
Theorem mainLoop_unclassified_error (fuel : nat) (st : Session) (w : World)
    (e kind : JsVal) (rest : list Outcome) (quit : bool) (more : list bool) :
  active st = true ->
  killed st = false ->
  script w = Reject e :: rest ->
  isAdtError e = true ->
  errorType e = Val kind ->
  Js.is_string "conflictNotification" kind = false ->
  Js.is_string "conflictDetected" kind = false ->
  Js.is_string ATTACHTIMEOUT kind = false ->
  answers w = quit :: more ->
  let w' := mkWorld rest more (loggedin w)
              (trace w ++
               [ARemote (listen_call st) st;
                AConfirm ("Error listening to debugger: " +:+ caughtToString e
                          +:+ " Close session?")]) in
  mainLoop_while (S fuel) st w =
  if quit then stopDebugging true st w' else mainLoop_while fuel st w'.
Proof.
  intros Ha Hk Hs Hadt Hty Hn1 Hn2 Hn3 Hans. cbv zeta.
  rewrite (mainLoop_while_step fuel st w Ha).
  assert (Hturn : mainLoop_turn st w =
                  (if quit then (_ <- stopDebugging true ;; ret Continue) else ret Continue)
                    st (mkWorld rest more (loggedin w)
                          (trace w ++
                           [ARemote (listen_call st) st;
                            AConfirm ("Error listening to debugger: " +:+ caughtToString e
                                      +:+ " Close session?")]))).
  { on_fields st w. run_turn. rewrite Hadt, Hty. run_turn.
    rewrite Hn1, Hn2. cbn. unfold ATTACHTIMEOUT in Hn3. rewrite Hn3.
    rewrite <- app_assoc. destruct quit; reflexivity. }
  unfold bind at 1. rewrite Hturn. destruct quit; [|reflexivity].
  unfold bind.
  pose proof (stopDebugging_session true st
                (mkWorld rest more (loggedin w)
                   (trace w ++
                    [ARemote (listen_call st) st;
                     AConfirm ("Error listening to debugger: " +:+ caughtToString e
                               +:+ " Close session?")]))) as Hsess.
  destruct (stopDebugging true st _) as [[r s2] w2]. cbn in Hsess.
  destruct r as [[]|e'| |]; try reflexivity.
  cbn. rewrite mainLoop_while_inactive; [reflexivity|].
  rewrite Hsess. destruct st; reflexivity.
Qed.

(** X14.  What a settled listen call leads to.  While the session is active
    and live: a falsy result is passed over and the loop goes on; a result
    that is a listener error ends the loop run at once, leaving [active]
    set; any other result is handed to [onBreakpointReached].  When that
    completes the loop goes on; when it throws, the loop run ends there
    without an error, since the session is inactive by then. *)
Theorem mainLoop_listen_result (fuel : nat) (st : Session) (w : World) (v : JsVal)
    (rest : list Outcome) :
  active st = true ->
  killed st = false ->
  script w = Resolve v :: rest ->
  let w' := after_calls rest [ARemote (listen_call st) st] w in
  (Js.truthy v = false ->
   mainLoop_while (S fuel) st w = mainLoop_while fuel st w') /\
  (Js.truthy v = true -> isDebugListenerError v = true ->
   mainLoop_while (S fuel) st w = (Normal tt, st, w')) /\
  (Js.truthy v = true -> isDebugListenerError v = false ->
   mainLoop_while (S fuel) st w =
   then_ (onBreakpointReached v) (fun _ => mainLoop_while fuel) (fun _ => ret tt) st w').
Proof.
  intros Ha Hk Hs. cbv zeta. rewrite (mainLoop_while_step fuel st w Ha).
  repeat split.
  - intros Hv. on_fields st w. unfold bind at 1. run_turn. rewrite Hv. reflexivity.
  - intros Hv Hl. on_fields st w. unfold bind at 1. run_turn. rewrite Hv, Hl.
    reflexivity.
  - intros Hv Hl. on_fields st w. unfold bind, then_. run_turn. rewrite Hv, Hl.
    cbn.
    match goal with
    | |- context [onBreakpointReached v ?s ?w0] =>
        pose proof (onBreakpointReached_throws_inactive v s w0) as Hthrow;
        destruct (onBreakpointReached v s w0) as [[r s2] w2]
    end.
    destruct r as [[]|e| |]; try reflexivity.
    cbn in Hthrow. specialize (Hthrow e eq_refl).
    destruct s2. cbn in Hthrow. subst. reflexivity.
Qed.

End Turns.

Lemma mainLoop_transient_errors_witness :
  @mainLoop_while example_imports 1 (set_active true fresh_session)
    (world_of [Reject network_error] []) =
  @mainLoop_while example_imports 0 (set_active true fresh_session)
    (after_calls []
       [ARemote (listen_call fresh_session) (set_active true fresh_session);
        AShowError (JStr ("Error listening to debugger: "
                          +:+ @caughtToString example_imports network_error))]
       (world_of [Reject network_error] [])).
Proof.
  apply (proj1 (@mainLoop_transient_errors example_imports 0
                  (set_active true fresh_session)
                  (world_of [Reject network_error] []) network_error []
                  eq_refl eq_refl eq_refl)).
  reflexivity.
Defined.

Lemma mainLoop_unclassified_error_witness :
  @mainLoop_while example_imports 1 (set_active true fresh_session)
    (world_of [Reject (JObj [("name", JStr "AdtErrorException");
                             ("properties", JObj [(SUBTYPE, JStr "lockConflict")])]);
               Resolve JUndefined] [true]) =
  stopDebugging true (set_active true fresh_session)
    (mkWorld [Resolve JUndefined] [] true
       [ARemote (listen_call fresh_session) (set_active true fresh_session);
        AConfirm ("Error listening to debugger: [object Object] Close session?")]).
Proof.
  apply (@mainLoop_unclassified_error example_imports 0 (set_active true fresh_session)
           (world_of [Reject (JObj [("name", JStr "AdtErrorException");
                                    ("properties", JObj [(SUBTYPE, JStr "lockConflict")])]);
                      Resolve JUndefined] [true])
           (JObj [("name", JStr "AdtErrorException");
                  ("properties", JObj [(SUBTYPE, JStr "lockConflict")])])
           (JStr "lockConflict") [Resolve JUndefined] true []);
    reflexivity.
Defined.

Lemma mainLoop_listen_result_witness :
  @mainLoop_while example_imports 1 (set_active true fresh_session)
    (world_of [Resolve (JObj [("errorType", JStr "listenerError")])] []) =
  (Normal tt, set_active true fresh_session,
   after_calls [] [ARemote (listen_call fresh_session) (set_active true fresh_session)]
     (world_of [Resolve (JObj [("errorType", JStr "listenerError")])] [])).
Proof.
  apply (proj1 (proj2 (@mainLoop_listen_result example_imports 0
                  (set_active true fresh_session)
                  (world_of [Resolve (JObj [("errorType", JStr "listenerError")])] [])
                  (JObj [("errorType", JStr "listenerError")]) []
                  eq_refl eq_refl eq_refl)));
    reflexivity.
Defined.

(** ** Progress of the loop *)

Ltac run_sizes :=
  cbv -[isConflictError errorType conflictText calls fired app String.append
        Js.to_string Js.truthy Js.or_else Js.member Js.get_prop Js.is_string
        isAdtError isDebugListenerError caughtToString In not Disconnected
        length lt];
  rewrite ?isConflictError_Disconnected.

Ltac split_turn :=
  repeat match goal with
    | |- context [isConflictError Disconnected] => rewrite isConflictError_Disconnected
    | |- context [match ?x with _ => _ end] => is_var x; destruct x
    | |- context [match isConflictError ?e with _ => _ end] =>
        destruct (isConflictError e) as [[|]|?] eqn:?
    | |- context [match errorType ?e with _ => _ end] =>
        destruct (errorType e) as [?|?] eqn:?
    | |- context [match Js.member ?k ?v with _ => _ end] =>
        destruct (Js.member k v) as [?|?] eqn:?
    | |- context [if Js.truthy ?v then _ else _] => destruct (Js.truthy v) eqn:?
    | |- context [if isAdtError ?e then _ else _] => destruct (isAdtError e) eqn:?
    | |- context [if isDebugListenerError ?v then _ else _] =>
        destruct (isDebugListenerError v) eqn:?
    | |- context [if Js.is_string ?k ?v then _ else _] =>
        destruct (Js.is_string k v) eqn:?
    end.

Ltac crunch_turn := run_sizes; repeat (progress (split_turn; run_sizes)).

Section Progress.

Context `{Imports}.

(** On a live instance every turn that lets the loop go on has used up an
    outcome of the script; the instance stays live. *)
Lemma mainLoop_turn_progress (st : Session) (w : World) :
  killed st = false ->
  killed (session (mainLoop_turn st w)) = false /\
  outcome (mainLoop_turn st w) <> OutOfFuel /\
  (outcome (mainLoop_turn st w) = Normal Continue ->
   length (script (world (mainLoop_turn st w))) < length (script w)).
Proof.
  intros Hk. on_fields st w. crunch_turn;
    (split; [reflexivity | split; [discriminate | intros Hc; try discriminate Hc; cbn; lia]]).
Qed.

(** X15.  On a live instance the loop cannot spin: every turn awaits a
    listen call.  So a run with more fuel than there are scripted outcomes
    never runs out of fuel: it ends, or it waits for a call or an answer that
    never comes. *)
Theorem mainLoop_while_ends (fuel : nat) (st : Session) (w : World) :
  killed st = false ->
  length (script w) < fuel ->
  outcome (mainLoop_while fuel st w) <> OutOfFuel.
Proof.
  revert st w. induction fuel as [|fuel IH]; intros st w Hk Hlen; [lia|].
  destruct (active st) eqn:Ha.
  - rewrite (mainLoop_while_step fuel st w Ha). unfold bind.
    destruct (mainLoop_turn_progress st w Hk) as (Hk' & Hfuel & Hless).
    destruct (mainLoop_turn st w) as [[r s1] w1]. cbn in Hk', Hfuel, Hless.
    destruct r as [[| |]|e| |]; cbn; try discriminate; [|contradiction].
    apply IH; [exact Hk'|]. specialize (Hless eq_refl). lia.
  - rewrite mainLoop_while_inactive by exact Ha. discriminate.
Qed.

(** X16.  On a killed instance the loop spins.  [mainLoop] sets [active],
    every turn is refused by the guard before anything is awaited, and (the
    refusal not being an ADT error) each turn only shows the error.  So
    whatever the fuel, the run exhausts it, having issued no remote call and
    shown the error once per turn. *)
Theorem mainLoop_killed_spins (fuel : nat) (st : Session) (w : World) :
  killed st = true ->
  isAdtError Disconnected = false ->
  mainLoop fuel st w =
  (OutOfFuel, set_active true st,
   after_calls (script w)
     (repeat (AShowError (JStr ("Error listening to debugger: "
                                +:+ caughtToString Disconnected))) fuel) w).
Proof.
  intros Hk Hadt. unfold mainLoop, bind, modify.
  assert (Hloop : forall n w0,
             mainLoop_while n (set_active true st) w0 =
             (OutOfFuel, set_active true st,
              after_calls (script w0)
                (repeat (AShowError (JStr ("Error listening to debugger: "
                                           +:+ caughtToString Disconnected))) n) w0)).
  { induction n as [|n IH]; intros w0.
    - destruct st, w0. cbn. unfold after_calls. cbn. rewrite app_nil_r. reflexivity.
    - rewrite mainLoop_while_step by (destruct st; reflexivity).
      unfold bind.
      assert (Hturn : mainLoop_turn (set_active true st) w0 =
                      (Normal Continue, set_active true st,
                       record (AShowError (JStr ("Error listening to debugger: "
                                                 +:+ caughtToString Disconnected))) w0)).
      { destruct st as [c md t i u sn a at_ k], w0 as [sc an li tr].
        cbn in Hk. subst k.
        cbv -[isAdtError caughtToString String.append app Disconnected].
        rewrite Hadt. reflexivity. }
      rewrite Hturn, IH. destruct w0. unfold after_calls, record. cbn.
      rewrite <- app_assoc. reflexivity. }
  apply Hloop.
Qed.

End Progress.

Lemma mainLoop_while_ends_witness :
  outcome (@mainLoop_while example_imports 3 (set_active true fresh_session)
             (world_of [Reject network_error; Resolve JUndefined] []))
  <> OutOfFuel.
Proof.
  apply (@mainLoop_while_ends example_imports 3 (set_active true fresh_session)
           (world_of [Reject network_error; Resolve JUndefined] []) eq_refl).
  cbn. lia.
Defined.

Lemma mainLoop_killed_spins_witness :
  outcome (@mainLoop example_imports 5 (set_killed true fresh_session)
             (world_of [Resolve JUndefined] []))
  = OutOfFuel.
Proof.
  rewrite (@mainLoop_killed_spins example_imports 5 (set_killed true fresh_session)
             (world_of [Resolve JUndefined] []) eq_refl eq_refl).
  reflexivity.
Defined.

(** * Identities and construction *)

(** ** Fresh identifiers *)

Lemma upper_ascii_hyphen (c : ascii) : upper_ascii c = "-"%char -> c = "-"%char.
Proof.
  destruct c as [[] [] [] [] [] [] [] []]; vm_compute; intros Heq;
    first [reflexivity | discriminate Heq].
Qed.

Lemma upper_ascii_idem (c : ascii) : upper_ascii (upper_ascii c) = upper_ascii c.
Proof. destruct c as [[] [] [] [] [] [] [] []]; reflexivity. Qed.

Lemma remove_hyphens_clean (s : string) :
  ~ In "-"%char (list_ascii_of_string (remove_hyphens s)).
Proof.
  induction s as [|c s IH]; cbn; [tauto|].
  destruct (Ascii.eqb c "-") eqn:Hc; [exact IH|].
  cbn. intros [Heq|Hin]; [|exact (IH Hin)].
  subst c. discriminate Hc.
Qed.

Lemma toUpperCase_hyphen (s : string) :
  In "-"%char (list_ascii_of_string (toUpperCase s)) ->
  In "-"%char (list_ascii_of_string s).
Proof.
  induction s as [|c s IH]; cbn; [tauto|].
  intros [Heq|Hin]; [left; apply upper_ascii_hyphen; exact Heq | right; auto].
Qed.

Lemma toUpperCase_idem (s : string) : toUpperCase (toUpperCase s) = toUpperCase s.
Proof.
  induction s as [|c s IH]; cbn; [reflexivity|]. rewrite upper_ascii_idem, IH. reflexivity.
Qed.

Lemma toUpperCase_length (s : string) : String.length (toUpperCase s) = String.length s.
Proof. induction s as [|c s IH]; cbn; [reflexivity | rewrite IH; reflexivity]. Qed.

(** The number of hyphens of a string. *)
Lemma remove_hyphens_length (s : string) :
  String.length (remove_hyphens s)
  + length (List.filter (fun c => Ascii.eqb c "-") (list_ascii_of_string s))
  = String.length s.
Proof.
  induction s as [|c s IH]; [reflexivity|].
  cbn -[Ascii.eqb]. destruct (Ascii.eqb c "-"); cbn -[Ascii.eqb]; lia.
Qed.

(** X17.  A fresh identifier holds no hyphen, is not changed by another
    [toUpperCase], and has as many characters as the UUID has characters
    other than hyphens: 32 for a UUID of 36 characters with 4 hyphens. *)
Theorem fresh_id_shape (uuid : string) :
  ~ In "-"%char (list_ascii_of_string (fresh_id uuid)) /\
  toUpperCase (fresh_id uuid) = fresh_id uuid /\
  String.length (fresh_id uuid)
  + length (List.filter (fun c => Ascii.eqb c "-") (list_ascii_of_string uuid))
  = String.length uuid.
Proof.
  unfold fresh_id. split; [|split].
  - intros Hin. apply toUpperCase_hyphen in Hin. exact (remove_hyphens_clean uuid Hin).
  - apply toUpperCase_idem.
  - rewrite toUpperCase_length. apply remove_hyphens_length.
Qed.

(** ** The workspace id *)

(** X18.  The workspace id is stable.  Whatever the workspace state holds,
    after one call of [getOrCreateIdeId] every further call returns the same
    id and leaves the state as it is, whatever UUID it would draw.  A string
    already stored is returned without a write; anything else stored under
    the key (nothing, or a value that is not a string) is replaced by a
    fresh identifier. *)
Theorem getOrCreateIdeId_stable (uuid uuid' : string) (ws : gmap string JsVal) :
  getOrCreateIdeId uuid' (getOrCreateIdeId uuid ws).2 = getOrCreateIdeId uuid ws /\
  (forall ideId, ws !! IDE_KEY = Some (JStr ideId) ->
                 getOrCreateIdeId uuid ws = (ideId, ws)) /\
  ((forall ideId, ws !! IDE_KEY <> Some (JStr ideId)) ->
   getOrCreateIdeId uuid ws = (fresh_id uuid, <[IDE_KEY := JStr (fresh_id uuid)]> ws)).
Proof.
  split; [|split].
  - unfold getOrCreateIdeId.
    destruct (ws !! IDE_KEY) as [[| | | |ideId|]|] eqn:Hget; cbn;
      rewrite ?lookup_insert_eq, ?Hget, ?insert_insert_eq; reflexivity.
  - intros ideId Hget. unfold getOrCreateIdeId. rewrite Hget. reflexivity.
  - intros Hnone. unfold getOrCreateIdeId.
    destruct (ws !! IDE_KEY) as [[| | | |ideId|]|] eqn:Hget; try reflexivity.
    exfalso. exact (Hnone ideId eq_refl).
Qed.

Lemma getOrCreateIdeId_stable_witness :
  getOrCreateIdeId "c0ffee-01" ({[IDE_KEY := JNum 7]} : gmap string JsVal)
  = ("C0FFEE01", <[IDE_KEY := JStr "C0FFEE01"]> {[IDE_KEY := JNum 7]}).
Proof.
  apply (proj2 (proj2 (getOrCreateIdeId_stable "c0ffee-01" ""
                         ({[IDE_KEY := JNum 7]} : gmap string JsVal)))).
  intros ideId. rewrite lookup_singleton_eq. discriminate.
Defined.

(** ** The terminal id *)

Section TerminalId.

Context `{FileSystem}.

(** A terminal-id file that can be read is returned and nothing is
    written. *)
Lemma getOrCreateTerminalId_there (uuid : string) (m : Machine) (content : string) :
  platform m <> "win32" ->
  readFileSync (cfgfile m) (disk m) = Val content ->
  getOrCreateTerminalId uuid m = (Val content, m).
Proof.
  intros Hp Hfile. apply String.eqb_neq in Hp.
  unfold getOrCreateTerminalId. rewrite Hp, Hfile. reflexivity.
Qed.

(** Only the disk of the machine changes. *)
Lemma getOrCreateTerminalId_machine (uuid : string) (m : Machine) :
  platform (getOrCreateTerminalId uuid m).2 = platform m /\
  homedir (getOrCreateTerminalId uuid m).2 = homedir m /\
  registryReader (getOrCreateTerminalId uuid m).2 = registryReader m.
Proof.
  unfold getOrCreateTerminalId.
  destruct (String.eqb (platform m) "win32").
  - destruct (registryReader m) as [reg|] eqn:Hreg; cbn.
    + destruct (reg _ _ _) as [t|]; [destruct (String.eqb t "")|]; cbn; auto.
    + auto.
  - destruct (readFileSync _ _) as [content|e]; cbn; [auto|].
    destruct (existsSync _ _).
    + destruct (writeFileSync _ _ _) as [[done|e2] d2]; cbn; auto.
    + destruct (mkdirSync _ _) as [[made|e1] d1]; cbn; [|auto].
      destruct (writeFileSync _ _ _) as [[done|e2] d2]; cbn; auto.
Qed.

(** What the [catch] block does once the read has failed. *)
Lemma getOrCreateTerminalId_missing (uuid : string) (m : Machine) (e : JsVal) :
  platform m <> "win32" ->
  readFileSync (cfgfile m) (disk m) = Exn e ->
  getOrCreateTerminalId uuid m =
  match (if existsSync (cfgpath m) (disk m) then (Val tt, disk m)
         else mkdirSync (cfgpath m) (disk m)) with
  | (Exn e1, d1) => (Exn e1, with_disk d1 m)
  | (Val _, d1) =>
      match writeFileSync (cfgfile m) (fresh_id uuid) d1 with
      | (Exn e2, d2) => (Exn e2, with_disk d2 m)
      | (Val _, d2) => (Val (fresh_id uuid), with_disk d2 m)
      end
  end.
Proof.
  intros Hp Hfile. apply String.eqb_neq in Hp.
  unfold getOrCreateTerminalId. rewrite Hp, Hfile. reflexivity.
Qed.

(** X19.  Off Windows the terminal id lives in the file [terminalId] of
    the directory [.SAP/ABAPDebugging] of the home directory.  A file that
    can be read is returned as it is, even when empty, and nothing is
    written.  When the read fails, its error is swallowed, whatever it is:
    an id returned then is the fresh identifier, and it has been written to
    that file, on the disk as it was or as a successful [mkdirSync] of the
    directory left it, [mkdirSync] being tried only when the directory does
    not exist.  The call is rejected only with what [mkdirSync] or
    [writeFileSync] throws, and is rejected whenever one of them throws. *)
Theorem getOrCreateTerminalId_file (uuid : string) (m : Machine) :
  platform m <> "win32" ->
  let r := getOrCreateTerminalId uuid m in
  let path := cfgpath m in
  let file := cfgfile m in
  (forall content, readFileSync file (disk m) = Val content -> r = (Val content, m)) /\
  (forall e t,
      readFileSync file (disk m) = Exn e -> r.1 = Val t ->
      t = fresh_id uuid /\
      exists d,
        writeFileSync file (fresh_id uuid) d = (Val tt, disk r.2) /\
        ((existsSync path (disk m) = true /\ d = disk m) \/
         (existsSync path (disk m) = false /\ mkdirSync path (disk m) = (Val tt, d)))) /\
  (forall e',
      r.1 = Exn e' ->
      (exists e, readFileSync file (disk m) = Exn e) /\
      ((existsSync path (disk m) = false /\ (mkdirSync path (disk m)).1 = Exn e') \/
       (exists d, (writeFileSync file (fresh_id uuid) d).1 = Exn e'))) /\
  (forall e e1,
      readFileSync file (disk m) = Exn e ->
      existsSync path (disk m) = false ->
      (mkdirSync path (disk m)).1 = Exn e1 ->
      r = (Exn e1, with_disk (mkdirSync path (disk m)).2 m)) /\
  (forall e e2,
      readFileSync file (disk m) = Exn e ->
      existsSync path (disk m) = true ->
      (writeFileSync file (fresh_id uuid) (disk m)).1 = Exn e2 ->
      r.1 = Exn e2).
Proof.
  intros Hp. cbv zeta. split; [|split; [|split; [|split]]].
  - intros content. apply getOrCreateTerminalId_there, Hp.
  - intros e t Hread. rewrite (getOrCreateTerminalId_missing uuid m e Hp Hread).
    destruct (existsSync (cfgpath m) (disk m)).
    + destruct (writeFileSync _ _ (disk m)) as [[[]|e2] d2] eqn:Hwrite; cbn;
        [|discriminate].
      intros Heq. injection Heq as <-. split; [reflexivity|].
      exists (disk m). split; [exact Hwrite | left; auto].
    + destruct (mkdirSync _ _) as [[[]|e1] d1] eqn:Hmk; cbn; [|discriminate].
      destruct (writeFileSync _ _ d1) as [[[]|e2] d2] eqn:Hwrite; cbn;
        [|discriminate].
      intros Heq. injection Heq as <-. split; [reflexivity|].
      exists d1. split; [exact Hwrite | right; auto].
  - intros e'. destruct (readFileSync (cfgfile m) (disk m)) as [content|e] eqn:Hread.
    + rewrite (getOrCreateTerminalId_there uuid m content Hp Hread). discriminate.
    + rewrite (getOrCreateTerminalId_missing uuid m e Hp Hread).
      intros Hfail. split; [eauto|].
      destruct (existsSync (cfgpath m) (disk m)).
      * destruct (writeFileSync _ _ (disk m)) as [[[]|e2] d2] eqn:Hwrite;
          cbn in Hfail; [discriminate|].
        injection Hfail as <-. right. exists (disk m). rewrite Hwrite. reflexivity.
      * destruct (mkdirSync _ _) as [[[]|e1] d1] eqn:Hmk; cbn in Hfail.
        -- destruct (writeFileSync _ _ d1) as [[[]|e2] d2] eqn:Hwrite;
             cbn in Hfail; [discriminate|].
           injection Hfail as <-. right. exists d1. rewrite Hwrite. reflexivity.
        -- injection Hfail as <-. left. auto.
  - intros e e1 Hread Hex Hmk.
    rewrite (getOrCreateTerminalId_missing uuid m e Hp Hread), Hex.
    destruct (mkdirSync _ _) as [[[]|e1'] d1]; cbn in *; [discriminate|].
    injection Hmk as <-. reflexivity.
  - intros e e2 Hread Hex Hwrite.
    rewrite (getOrCreateTerminalId_missing uuid m e Hp Hread), Hex.
    destruct (writeFileSync _ _ _) as [[[]|e2'] d2]; cbn in *; [discriminate|].
    injection Hwrite as <-. reflexivity.
Qed.

(** X20.  Off Windows the terminal id is stable on a file system that reads
    back what was written: once a call has returned an id, every further
    call returns that id and leaves the machine as it is, whatever UUID it
    would draw. *)
Theorem getOrCreateTerminalId_stable (uuid uuid' : string) (m : Machine) (t : string) :
  platform m <> "win32" ->
  (forall path content d d',
      writeFileSync path content d = (Val tt, d') ->
      readFileSync path d' = Val content) ->
  (getOrCreateTerminalId uuid m).1 = Val t ->
  getOrCreateTerminalId uuid' (getOrCreateTerminalId uuid m).2
  = (Val t, (getOrCreateTerminalId uuid m).2).
Proof.
  intros Hp Hback.
  destruct (readFileSync (cfgfile m) (disk m)) as [content|e] eqn:Hread.
  - rewrite (getOrCreateTerminalId_there uuid m content Hp Hread). cbn.
    intros Heq. injection Heq as <-.
    apply getOrCreateTerminalId_there; assumption.
  - rewrite (getOrCreateTerminalId_missing uuid m e Hp Hread).
    destruct (if existsSync _ _ then _ else _) as [[[]|e1] d1]; cbn; [|discriminate].
    destruct (writeFileSync _ _ d1) as [[[]|e2] d2] eqn:Hwrite; cbn; [|discriminate].
    intros Heq. injection Heq as <-.
    apply getOrCreateTerminalId_there; [exact Hp|].
    apply (Hback _ _ _ _ Hwrite).
Qed.

(** X21.  On Windows the terminal id is read from the registry on every
    call and never made up: the call leaves the machine as it is, and it
    returns an id exactly when there is a reader and it yields a string that
    is not empty; otherwise it fails with "Unable to read terminal ID from
    windows registry". *)
Theorem getOrCreateTerminalId_windows (uuid : string) (m : Machine) :
  platform m = "win32" ->
  (getOrCreateTerminalId uuid m).2 = m /\
  (forall t,
      (getOrCreateTerminalId uuid m).1 = Val t <->
      t <> "" /\
      exists reg, registryReader m = Some reg /\
                  reg "HKEY_CURRENT_USER" "Software\SAP\ABAP Debugging" "TerminalID" = Some t) /\
  ((forall t, (getOrCreateTerminalId uuid m).1 <> Val t) ->
   (getOrCreateTerminalId uuid m).1
   = Exn (Js.Error "Error" "Unable to read terminal ID from windows registry")).
Proof.
  intros Hp. apply String.eqb_eq in Hp. unfold getOrCreateTerminalId. rewrite Hp.
  destruct (registryReader m) as [reg|]; cbn.
  - destruct (reg _ _ _) as [t0|] eqn:Hreg; cbn.
    + destruct (String.eqb t0 "") eqn:Ht0; cbn.
      * apply String.eqb_eq in Ht0. subst t0.
        split; [reflexivity|]. split; [|reflexivity].
        intros t. split; [discriminate|].
        intros (Hne & reg' & Hsome & Hread). injection Hsome as <-.
        rewrite Hreg in Hread. injection Hread as <-. contradiction.
      * apply String.eqb_neq in Ht0.
        split; [reflexivity|]. split.
        -- intros t. split.
           ++ intros Heq. injection Heq as <-. split; [exact Ht0 | eauto].
           ++ intros (Hne & reg' & Hsome & Hread). injection Hsome as <-.
              rewrite Hreg in Hread. injection Hread as <-. reflexivity.
        -- intros Hnone. exfalso. exact (Hnone t0 eq_refl).
    + split; [reflexivity|]. split; [|reflexivity].
      intros t. split; [discriminate|].
      intros (Hne & reg' & Hsome & Hread). injection Hsome as <-.
      rewrite Hreg in Hread. discriminate Hread.
  - split; [reflexivity|]. split; [|reflexivity].
    intros t. split; [discriminate|].
    intros (Hne & reg' & Hsome & Hread). discriminate Hsome.
Qed.

(** ** Creating a listener *)

(** X22.  [create] takes a session number exactly when it succeeds.  When
    it fails (no client, a rejected client lookup, an unreadable terminal
    id) the session counters and the workspace state are as before; without
    a client it fails with "Unable to get client for" followed directly by
    the connection id, having touched nothing.  When it succeeds the new
    listener is inactive, detached and live, carries the next number of its
    connection, and that number is now the stored one. *)
Theorem create_counts (conn : string) (found : Result (option string))
    (username : string) (terminalMode : bool) (uuid1 uuid2 : string) (h : Host) :
  let r := create conn found username terminalMode uuid1 uuid2 h in
  (found = Val None ->
   r = (Exn (Js.Error "Error" ("Unable to get client for" +:+ conn)), h)) /\
  (forall e, r.1 = Exn e ->
             sessionNumbers r.2 = sessionNumbers h /\
             workspaceState r.2 = workspaceState h) /\
  (forall s, r.1 = Val s ->
             connId s = conn /\
             active s = false /\ attached s = false /\ killed s = false /\
             mode s = (if terminalMode then ModeTerminal else ModeUser) /\
             sessionNumber s = default 0 (sessionNumbers h !! conn) + 1 /\
             sessionNumbers r.2 = <[conn := sessionNumber s]> (sessionNumbers h)).
Proof.
  cbv zeta. unfold create. split; [|split].
  - intros ->. reflexivity.
  - intros e. destruct found as [[clientUsername|]|e0]; cbn; auto.
    destruct (getOrCreateTerminalId uuid1 (machine h)) as [[t|e1] m]; cbn; auto.
    destruct (getOrCreateIdeId uuid2 (workspaceState h)) as [ideId ws].
    cbn. discriminate.
  - intros s. destruct found as [[clientUsername|]|e0]; cbn; try discriminate.
    destruct (getOrCreateTerminalId uuid1 (machine h)) as [[t|e1] m]; cbn;
      try discriminate.
    destruct (getOrCreateIdeId uuid2 (workspaceState h)) as [ideId ws].
    cbn. intros Heq. injection Heq as <-. cbn. repeat split.
Qed.

End TerminalId.

(** The disk in memory reads back what was written. *)
Lemma mem_read_back (path content : string) (d d' : MemDisk) :
  mem_writeFileSync path content d = (Val tt, d') ->
  mem_readFileSync path d' = Val content.
Proof.
  unfold mem_writeFileSync, mem_readFileSync.
  destruct (bool_decide (path ∈ dirs d)) eqn:Hdir; [discriminate|].
  destruct (forallb _ _); [|discriminate].
  intros Heq. injection Heq as <-. cbn. rewrite Hdir, lookup_insert_eq. reflexivity.
Qed.

Lemma getOrCreateTerminalId_file_witness :
  (@getOrCreateTerminalId example_fs "ab-cd"
     (@mkMachine example_fs "linux" None "/home/alice"
        (mkMemDisk ∅ {[ "/home/alice/.SAP/ABAPDebugging/terminalId" := "" ]}))).1
  = Val "" /\
  (@getOrCreateTerminalId example_fs "ab-cd"
     (@mkMachine example_fs "linux" None "/home/alice"
        (mkMemDisk {[ "/home/alice/.SAP/ABAPDebugging/terminalId" ]} ∅))).1
  = Exn (fs_error "EISDIR" "/home/alice/.SAP/ABAPDebugging/terminalId").
Proof.
  split.
  - rewrite (proj1 (@getOrCreateTerminalId_file example_fs "ab-cd"
                      (@mkMachine example_fs "linux" None "/home/alice"
                         (mkMemDisk ∅
                            {[ "/home/alice/.SAP/ABAPDebugging/terminalId" := "" ]}))
                      ltac:(discriminate)) "" eq_refl).
    reflexivity.
  - reflexivity.
Defined.

Lemma getOrCreateTerminalId_stable_witness :
  @getOrCreateTerminalId example_fs "ef-01"
    (@getOrCreateTerminalId example_fs "ab-cd"
       (@mkMachine example_fs "linux" None "/home/alice" (mkMemDisk ∅ ∅))).2
  = (Val "ABCD",
     (@getOrCreateTerminalId example_fs "ab-cd"
        (@mkMachine example_fs "linux" None "/home/alice" (mkMemDisk ∅ ∅))).2).
Proof.
  apply (@getOrCreateTerminalId_stable example_fs "ab-cd" "ef-01"
           (@mkMachine example_fs "linux" None "/home/alice" (mkMemDisk ∅ ∅)) "ABCD").
  - discriminate.
  - intros path content d d'. apply mem_read_back.
  - reflexivity.
Defined.

Lemma getOrCreateTerminalId_windows_witness :
  (@getOrCreateTerminalId example_fs "ab-cd"
     (@mkMachine example_fs "win32" (Some (fun _ _ _ => Some "")) "C:/Users/alice"
        (mkMemDisk ∅ ∅))).1
  = Exn (Js.Error "Error" "Unable to read terminal ID from windows registry").
Proof.
  apply (proj2 (proj2 (@getOrCreateTerminalId_windows example_fs "ab-cd"
            (@mkMachine example_fs "win32" (Some (fun _ _ _ => Some "")) "C:/Users/alice"
               (mkMemDisk ∅ ∅))
            eq_refl))).
  intros t. discriminate.
Defined.

Lemma create_counts_witness :
  sessionNumber
    (match (@create example_fs "dev100" (Val (Some "ALICE")) "" false "ab-cd" "12-ef"
              (@mkHost example_fs
                 (@mkMachine example_fs "linux" None "/home/alice" (mkMemDisk ∅ ∅)) ∅
                 {["dev100" := 4]})).1
     with Val s => s | Exn _ => fresh_session end)
  = 5.
Proof.
  refine (proj1 (proj2 (proj2 (proj2 (proj2 (proj2
            (proj2 (proj2 (@create_counts example_fs "dev100" (Val (Some "ALICE")) ""
                             false "ab-cd" "12-ef"
                             (@mkHost example_fs
                                (@mkMachine example_fs "linux" None "/home/alice"
                                   (mkMemDisk ∅ ∅)) ∅
                                {["dev100" := 4]})))
               _ _))))))).
  vm_compute. reflexivity.
Defined.

(** * The servers of the file system *)

Section UriParts.

Import AdtServer AdtServerFacts.

Lemma split_slash_nonempty (s : string) : split_slash s <> [].
Proof.
  induction s as [|c s IH]; cbn [split_slash]; [discriminate|].
  destruct (Ascii.eqb c "/"); [discriminate|].
  destruct (split_slash s); discriminate.
Qed.

Lemma slash_free_cons (c : ascii) (s : string) :
  slash_free (String c s) -> Ascii.eqb c "/" = false /\ slash_free s.
Proof.
  unfold slash_free. cbn. intros Hfree. split.
  - apply Ascii.eqb_neq. intros ->. apply Hfree. left. reflexivity.
  - intros Hin. apply Hfree. right. exact Hin.
Qed.

(** A piece without a slash comes back whole. *)
Lemma split_slash_piece (a : string) : slash_free a -> split_slash a = [a].
Proof.
  induction a as [|c a IH]; intros Hfree; [reflexivity|].
  apply slash_free_cons in Hfree as [Hc Hfree].
  cbn [split_slash]. rewrite Hc, (IH Hfree). reflexivity.
Qed.

Lemma split_slash_app (a t : string) :
  slash_free a -> split_slash (a +:+ "/" +:+ t) = a :: split_slash t.
Proof.
  induction a as [|c a IH]; intros Hfree; [reflexivity|].
  apply slash_free_cons in Hfree as [Hc Hfree].
  change (String c a +:+ "/" +:+ t) with (String c (a +:+ "/" +:+ t)).
  cbn [split_slash]. rewrite Hc, (IH Hfree). reflexivity.
Qed.

Lemma append_cons (c : ascii) (a t : string) : String c a +:+ t = String c (a +:+ t).
Proof. reflexivity. Qed.

Lemma append_empty_r (s : string) : s +:+ "" = s.
Proof.
  induction s as [|c s IH]; [reflexivity|]. rewrite append_cons, IH. reflexivity.
Qed.

Lemma append_assoc_r (a b c : string) : (a +:+ b) +:+ c = a +:+ b +:+ c.
Proof.
  induction a as [|x a IH]; [reflexivity|]. rewrite !append_cons, IH. reflexivity.
Qed.

Lemma concat_slash_cons (a b : string) (rest : list string) :
  String.concat "/" (a :: b :: rest) = a +:+ "/" +:+ String.concat "/" (b :: rest).
Proof. reflexivity. Qed.

(** A slash at the end is an empty last piece. *)
Lemma concat_slash_trailing (a : string) (rest : list string) :
  String.concat "/" ((a :: rest) ++ [""]) = String.concat "/" (a :: rest) +:+ "/".
Proof.
  revert a. induction rest as [|b rest IH]; intros a.
  - cbn [app]. rewrite concat_slash_cons. cbn [String.concat].
    rewrite append_empty_r. reflexivity.
  - cbn [app]. rewrite !concat_slash_cons. cbn [app] in IH. rewrite IH.
    rewrite !append_assoc_r. reflexivity.
Qed.

(** Splitting undoes joining with slashes. *)
Lemma split_slash_concat (segs : list string) :
  segs <> [] -> Forall slash_free segs ->
  split_slash (String.concat "/" segs) = segs.
Proof.
  induction segs as [|a rest IH]; intros Hne Hfree; [contradiction|].
  inversion Hfree as [|? ? Ha Hrest]; subst.
  destruct rest as [|b rest].
  - cbn. apply split_slash_piece, Ha.
  - rewrite concat_slash_cons, split_slash_app by exact Ha.
    rewrite IH by (auto; discriminate). reflexivity.
Qed.

Lemma filter_from_app {A} (keep : A -> nat -> bool) (idx : nat) (l1 l2 : list A) :
  filter_from keep idx (l1 ++ l2) =
  filter_from keep idx l1 ++ filter_from keep (idx + length l1) l2.
Proof.
  revert idx. induction l1 as [|v l1 IH]; intros idx; cbn.
  - rewrite Nat.add_0_r. reflexivity.
  - rewrite IH. replace (S idx + length l1) with (idx + S (length l1)) by lia.
    destruct (keep v idx); reflexivity.
Qed.

Lemma filter_from_all {A} (keep : A -> nat -> bool) (idx : nat) (l : list A) :
  Forall (fun v => forall i, keep v i = true) l -> filter_from keep idx l = l.
Proof.
  intros Hall. revert idx. induction Hall as [|v l Hv Hall IH]; intros idx; cbn;
    [reflexivity|]. rewrite Hv, IH. reflexivity.
Qed.

(** The pieces [uriParts] keeps, given the pieces of the path: an empty
    first piece and an empty last piece go, named pieces stay. *)
Lemma uriParts_of_pieces (sch auth p : string) (lead trail : bool) (segs : list string) :
  segs <> [] -> Forall named segs ->
  split_slash p = (if lead then [""] else []) ++ segs ++ (if trail then [""] else []) ->
  uriParts (mkUri sch auth p) = segs.
Proof.
  intros Hne Hnamed Hsplit. unfold uriParts. cbn [path]. rewrite Hsplit.
  set (n := length _).
  assert (Hkeep : Forall (fun v => forall i,
             ((0 <? i)%nat && (i <? n - 1)%nat) || negb (String.eqb v "") = true) segs).
  { eapply Forall_impl; [exact Hnamed|]. intros v [Hv _] i. cbn beta.
    apply String.eqb_neq in Hv. rewrite Hv. apply orb_true_r. }
  rewrite !filter_from_app, (filter_from_all _ _ segs Hkeep).
  assert (Hlead : filter_from
            (fun v idx => ((0 <? idx)%nat && (idx <? n - 1)%nat) || negb (String.eqb v ""))
            0 (if lead then [""] else []) = []).
  { destruct lead; reflexivity. }
  rewrite Hlead. cbn [app].
  destruct trail; cbn [filter_from]; [|apply app_nil_r].
  replace (0 + length (if lead then [""] else []) + length segs <? n - 1)%nat with false.
  - rewrite andb_false_r. cbn. apply app_nil_r.
  - symmetry. apply Nat.ltb_ge. subst n. rewrite !length_app. cbn. lia.
Qed.

(** X23.  The named segments of a path come back in order.  For a path made
    of segments that are not empty and hold no slash, joined by slashes, with
    or without a slash in front and with or without one at the end,
    [uriParts] yields exactly those segments. *)
Theorem uriParts_segments (sch auth : string) (lead trail : bool) (segs : list string) :
  segs <> [] ->
  Forall named segs ->
  uriParts (mkUri sch auth ((if lead then "/" else "") +:+ String.concat "/" segs
                            +:+ (if trail then "/" else "")))
  = segs.
Proof.
  intros Hne Hnamed.
  apply (uriParts_of_pieces sch auth _ lead trail segs Hne Hnamed).
  assert (Hfree : Forall slash_free segs).
  { eapply Forall_impl; [exact Hnamed|]. intros v [_ Hv]. exact Hv. }
  assert (Htail : split_slash (String.concat "/" segs +:+ (if trail then "/" else ""))
                  = segs ++ (if trail then [""] else [])).
  { destruct trail.
    - destruct segs as [|a rest]; [contradiction|].
      rewrite <- concat_slash_trailing.
      apply split_slash_concat; [discriminate|].
      apply Forall_app. split; [exact Hfree|].
      constructor; [|constructor]. intros [].
    - rewrite app_nil_r, append_empty_r.
      apply split_slash_concat; assumption. }
  destruct lead; cbn [app]; [|exact Htail].
  change ("/" +:+ String.concat "/" segs +:+ (if trail then "/" else ""))
    with (String "/" (String.concat "/" segs +:+ (if trail then "/" else ""))).
  cbn [split_slash]. rewrite Htail. reflexivity.
Qed.

End UriParts.
Section ServerNodes.

Import AdtServer AdtServerFacts.

Lemma split_slash_slash_free (s : string) : Forall slash_free (split_slash s).
Proof.
  induction s as [|c s IH]; cbn [split_slash].
  - constructor; [|constructor]. intros [].
  - destruct (Ascii.eqb c "/") eqn:Hc.
    + constructor; [|exact IH]. intros [].
    + assert (Hhead : forall piece, slash_free piece -> slash_free (String c piece)).
      { intros piece Hpiece [Heq|Hin]; [|exact (Hpiece Hin)].
        subst c. discriminate Hc. }
      destruct (split_slash s) as [|piece rest].
      * constructor; [|constructor]. apply Hhead. intros [].
      * inversion IH; subst. constructor; [|assumption]. apply Hhead. assumption.
Qed.

Lemma filter_from_Forall {A} (P : A -> Prop) (keep : A -> nat -> bool) (idx : nat)
    (l : list A) :
  Forall P l -> Forall P (filter_from keep idx l).
Proof.
  intros Hall. revert idx. induction Hall as [|v l Hv Hall IH]; intros idx; cbn;
    [constructor|]. destruct (keep v idx); [constructor|]; auto.
Qed.

(** X24.  No part holds a slash, whatever the path: the names handed to
    [getChild] are single segments. *)
Theorem uriParts_slash_free (uri : Uri) : Forall slash_free (uriParts uri).
Proof. apply filter_from_Forall, split_slash_slash_free. Qed.

Context {Node : Type} (getChild : Node -> string -> option Node).

Lemma reduce_undefined (uri : Uri) (parts : list string) :
  parts <> [] -> reduce getChild uri parts None = Exn (FileNotFound uri).
Proof. destruct parts; [contradiction | reflexivity]. Qed.

(** The descent of [findNode], from a node that is there. *)
Lemma reduce_walk (uri : Uri) (parts : list string) (name : string) (node : Node) :
  reduce getChild uri (parts ++ [name]) (Some node) =
  match walk getChild parts node with
  | Some parent => Val (getChild parent name)
  | None => Exn (FileNotFound uri)
  end.
Proof.
  revert node. induction parts as [|p parts IH]; intros node; cbn; [reflexivity|].
  destruct (getChild node p) as [next|]; [apply IH|].
  apply reduce_undefined. destruct parts; discriminate.
Qed.

(** X25.  What [findNode] finds.  A path without parts gives the root.
    Otherwise the descent runs over all parts but the last: if a node on that
    way is missing, [findNode] throws [FileNotFound]; else it returns what
    [getChild] of the parent gives for the last part, which is [undefined],
    not an error, when that child is missing. *)
Theorem findNode_descent (root : Node) (uri : Uri) :
  (uriParts uri = [] -> findNode getChild root uri = Val (Some root)) /\
  (forall parts name,
      uriParts uri = parts ++ [name] ->
      findNode getChild root uri =
      match walk getChild parts root with
      | Some parent => Val (getChild parent name)
      | None => Exn (FileNotFound uri)
      end).
Proof.
  unfold findNode. split.
  - intros ->. reflexivity.
  - intros parts name ->. apply reduce_walk.
Qed.

End ServerNodes.

Section ServerRefresh.

Import AdtServer AdtServerFacts.

Context {Store Node : Type}
        (getChild : Store -> Node -> string -> option Node)
        (canRefresh : Store -> Node -> bool)
        (refresh : Store -> Node -> Result unit * Store)
        (connectionP : Result unit).

Lemma findNodePromise_loop_present (uri : Uri) (parts : list string) (node found : Node)
    (s : Store) :
  walk (getChild s) parts node = Some found ->
  findNodePromise_loop getChild canRefresh refresh connectionP uri parts node s
  = (Val found, s).
Proof.
  revert node. induction parts as [|p parts IH]; intros node; cbn.
  - intros Heq. injection Heq as <-. reflexivity.
  - destruct (getChild s node p) as [next|]; [apply IH | discriminate].
Qed.

Lemma findNodePromise_loop_fixed (uri : Uri) (parts : list string) (node : Node)
    (s : Store) :
  (forall n, canRefresh s n = false) ->
  walk (getChild s) parts node = None ->
  findNodePromise_loop getChild canRefresh refresh connectionP uri parts node s
  = (Exn (FileNotFound uri), s).
Proof.
  intros Hfixed. revert node. induction parts as [|p parts IH]; intros node; cbn.
  - discriminate.
  - destruct (getChild s node p) as [next|]; [apply IH|].
    intros _. rewrite Hfixed. reflexivity.
Qed.

(** X26.  [findNodePromise] and the tree as it stands.  When every node on
    the path is there already, [findNodePromise] returns the node at its end
    without refreshing anything and without awaiting the connection: the
    store is as before.  When a node is missing and no node can be
    refreshed, it is rejected with [FileNotFound], also for a missing last
    part, where [findNode] returns [undefined]. *)
Theorem findNodePromise_as_it_stands (root : Node) (uri : Uri) (s : Store) :
  (forall found,
      walk (getChild s) (uriParts uri) root = Some found ->
      findNodePromise getChild canRefresh refresh connectionP root uri s
      = (Val found, s)) /\
  ((forall n, canRefresh s n = false) ->
   walk (getChild s) (uriParts uri) root = None ->
   findNodePromise getChild canRefresh refresh connectionP root uri s
   = (Exn (FileNotFound uri), s)).
Proof.
  unfold findNodePromise. split.
  - intros found. apply findNodePromise_loop_present.
  - apply findNodePromise_loop_fixed.
Qed.

Context (isDirectory : Store -> Node -> bool)
        (nodeStat : Store -> Node -> Result unit * Store).

(** X27.  [stat] of a node that is there.  When every node on the path is
    there already and the node found cannot be refreshed, [stat] returns it
    and the store is as before.  When the node found can be refreshed but the
    connection promise is rejected, [stat] is rejected with that error,
    though the node is there.  And a node [stat] returns is the one
    [findNodePromise] returns. *)
Theorem stat_present (root : Node) (uri : Uri) (s : Store) :
  (forall found,
      walk (getChild s) (uriParts uri) root = Some found ->
      canRefresh s found = false ->
      stat getChild canRefresh refresh connectionP isDirectory nodeStat root uri s
      = (Val found, s)) /\
  (forall found e,
      walk (getChild s) (uriParts uri) root = Some found ->
      canRefresh s found = true ->
      connectionP = Exn e ->
      stat getChild canRefresh refresh connectionP isDirectory nodeStat root uri s
      = (Exn e, s)) /\
  (forall node,
      (stat getChild canRefresh refresh connectionP isDirectory nodeStat root uri s).1
      = Val node ->
      (findNodePromise getChild canRefresh refresh connectionP root uri s).1 = Val node).
Proof.
  unfold stat, findNodePromise. repeat split.
  - intros found Hwalk Hfixed.
    rewrite (findNodePromise_loop_present _ _ _ _ _ Hwalk), Hfixed. reflexivity.
  - intros found e Hwalk Hrefresh Hconn.
    rewrite (findNodePromise_loop_present _ _ _ _ _ Hwalk), Hrefresh, Hconn.
    reflexivity.
  - intros node.
    destruct (findNodePromise_loop _ _ _ _ _ _ _ _) as [[found|e] s1]; cbn;
      [|discriminate].
    destruct (canRefresh s1 found); [|trivial].
    destruct connectionP as [conn|e]; [|discriminate].
    destruct (if isDirectory s1 found then _ else _) as [[done|e] s2]; cbn;
      [trivial | discriminate].
Qed.

End ServerRefresh.

Section ServerCache.

Import AdtServer AdtServerFacts.

Context `{CaseMapping}.

(** X28.  [getServer] builds a server once per spelling.  After a call
    that returned a server, every further call with that connection id
    returns the same server and leaves the map as it is, whatever the
    configurations are by then.  A call that fails leaves the map as it
    is. *)
Theorem getServer_cached (connId : string) (remotes remotes' : list string)
    (servers : gmap string Server) :
  (forall server,
      (getServer connId remotes servers).1 = Val server ->
      getServer connId remotes' (getServer connId remotes servers).2
      = (Val server, (getServer connId remotes servers).2)) /\
  (forall e,
      (getServer connId remotes servers).1 = Exn e ->
      (getServer connId remotes servers).2 = servers).
Proof.
  unfold getServer. split.
  - intros server. destruct (servers !! connId) as [cached|] eqn:Hget; cbn.
    + intros Heq. injection Heq as <-. rewrite Hget. reflexivity.
    + destruct (constructor connId remotes) as [built|e]; cbn; [|discriminate].
      intros Heq. injection Heq as <-. rewrite lookup_insert_eq. reflexivity.
  - intros e. destruct (servers !! connId) as [cached|]; cbn; [discriminate|].
    destruct (constructor connId remotes) as [built|e']; cbn; [discriminate|].
    reflexivity.
Qed.

Lemma constructor_normalises (connId : string) (remotes : list string) (server : Server) :
  constructor connId remotes = Val server ->
  connectionId server = toLowerCase connId /\
  toLowerCase (remote server) = toLowerCase connId /\
  In (remote server) remotes.
Proof.
  unfold constructor.
  destruct (List.filter _ remotes) as [|config rest] eqn:Hfilter; [discriminate|].
  intros Heq. injection Heq as <-. cbn.
  assert (Hin : In config (List.filter
            (fun name => String.eqb (toLowerCase name) (toLowerCase connId)) remotes)).
  { rewrite Hfilter. left. reflexivity. }
  apply filter_In in Hin as [Hin Hmatch]. apply String.eqb_eq in Hmatch.
  auto.
Qed.

Lemma getServer_well_keyed (connId : string) (remotes : list string)
    (servers : gmap string Server) :
  well_keyed servers -> well_keyed (getServer connId remotes servers).2.
Proof.
  intros Hwk. unfold getServer.
  destruct (servers !! connId) as [cached|] eqn:Hget; cbn; [exact Hwk|].
  destruct (constructor connId remotes) as [built|e] eqn:Hbuild; cbn; [|exact Hwk].
  intros key server. rewrite lookup_insert.
  destruct (decide (connId = key)) as [<-|Hne].
  - intros Heq. injection Heq as <-.
    destruct (constructor_normalises connId remotes built Hbuild) as (H1 & H2 & _).
    auto.
  - apply Hwk.
Qed.

Lemma getServer_all_well_keyed (l : list (string * list string))
    (servers : gmap string Server) :
  well_keyed servers -> well_keyed (getServer_all l servers).
Proof.
  revert servers. induction l as [|[connId remotes] l IH]; intros servers Hwk;
    [exact Hwk|].
  cbn. apply IH, getServer_well_keyed, Hwk.
Qed.

(** X29.  Connection ids are lower case, cache keys are not.  Start from
    the empty map of a fresh process and run any calls of [getServer].  Then
    every server [fromUri] returns has the lower-cased authority of the URI
    as its connection id, was built from a configuration of that name (case
    aside), and the URI has the scheme "adt". *)
Theorem fromUri_connectionId (l : list (string * list string)) (uri : Uri)
    (remotes : list string) (server : Server) :
  (fromUri uri remotes (getServer_all l ∅)).1 = Val server ->
  scheme uri = "adt" /\
  connectionId server = toLowerCase (authority uri) /\
  toLowerCase (remote server) = toLowerCase (authority uri).
Proof.
  unfold fromUri. destruct (String.eqb (scheme uri) "adt") eqn:Hscheme;
    [|discriminate].
  apply String.eqb_eq in Hscheme. intros Hserver. split; [exact Hscheme|].
  assert (Hwk : well_keyed (getServer_all l ∅)).
  { apply getServer_all_well_keyed. intros key srv. rewrite lookup_empty. discriminate. }
  unfold getServer in Hserver.
  destruct (getServer_all l ∅ !! authority uri) as [cached|] eqn:Hget; cbn in Hserver.
  - injection Hserver as <-. exact (Hwk _ _ Hget).
  - destruct (constructor (authority uri) remotes) as [built|e] eqn:Hbuild;
      cbn in Hserver; [|discriminate].
    injection Hserver as <-.
    destruct (constructor_normalises _ _ _ Hbuild) as (H1 & H2 & _). auto.
Qed.

(** X30.  [getServer] fails exactly when the id is not cached and no
    configuration has its name, case aside; the error reads "connection "
    followed by the id as it was given. *)
Theorem getServer_fails (connId : string) (remotes : list string)
    (servers : gmap string Server) :
  (exists e, (getServer connId remotes servers).1 = Exn e) <->
  servers !! connId = None /\
  (forall name, In name remotes -> toLowerCase name <> toLowerCase connId).
Proof.
  unfold getServer, constructor. split.
  - intros [e He]. destruct (servers !! connId) as [cached|]; [discriminate He|].
    split; [reflexivity|].
    destruct (List.filter _ remotes) as [|config rest] eqn:Hfilter; [|discriminate He].
    intros name Hin Hmatch.
    assert (Hin' : In name (List.filter
              (fun name => String.eqb (toLowerCase name) (toLowerCase connId)) remotes)).
    { apply filter_In. split; [exact Hin|]. apply String.eqb_eq, Hmatch. }
    rewrite Hfilter in Hin'. exact Hin'.
  - intros [Hget Hnone]. rewrite Hget.
    destruct (List.filter _ remotes) as [|config rest] eqn:Hfilter.
    + cbn. eauto.
    + exfalso.
      assert (Hin : In config (List.filter
                (fun name => String.eqb (toLowerCase name) (toLowerCase connId)) remotes)).
      { rewrite Hfilter. left. reflexivity. }
      apply filter_In in Hin as [Hin Hmatch]. apply String.eqb_eq in Hmatch.
      exact (Hnone config Hin Hmatch).
Qed.

End ServerCache.

Lemma uriParts_segments_witness :
  AdtServer.uriParts (AdtServer.mkUri "adt" "dev100" "/sap/bc/adt/") = ["sap"; "bc"; "adt"].
Proof.
  apply (uriParts_segments "adt" "dev100" true true ["sap"; "bc"; "adt"]).
  - discriminate.
  - repeat constructor; try discriminate;
      intros Hin; cbn in Hin; intuition discriminate.
Defined.

Lemma findNode_descent_witness :
  AdtServer.findNode (fun (n : nat) (name : string) => if String.eqb name "a" then Some (S n) else None)
    0 (AdtServer.mkUri "adt" "dev100" "/a/b")
  = Val None.
Proof.
  apply (proj2 (findNode_descent
                  (fun (n : nat) (name : string) =>
                     if String.eqb name "a" then Some (S n) else None)
                  0 (AdtServer.mkUri "adt" "dev100" "/a/b")) ["a"] "b").
  reflexivity.
Defined.

Lemma findNodePromise_as_it_stands_witness :
  AdtServer.findNodePromise
    (fun (s : unit) (n : nat) (name : string) => if String.eqb name "a" then Some (S n) else None)
    (fun _ _ => false) (fun s _ => (Val tt, s)) (Val tt)
    0 (AdtServer.mkUri "adt" "dev100" "/a/b") tt
  = (Exn (AdtServer.FileNotFound (AdtServer.mkUri "adt" "dev100" "/a/b")), tt).
Proof.
  apply (proj2 (findNodePromise_as_it_stands
                  (fun (s : unit) (n : nat) (name : string) =>
                     if String.eqb name "a" then Some (S n) else None)
                  (fun _ _ => false) (fun s _ => (Val tt, s)) (Val tt)
                  0 (AdtServer.mkUri "adt" "dev100" "/a/b") tt)).
  - reflexivity.
  - reflexivity.
Defined.

Lemma getServer_cached_witness :
  @AdtServer.getServer AdtServer.ascii_case "Dev100" []
    (@AdtServer.getServer AdtServer.ascii_case "Dev100" ["DEV100"] ∅).2
  = (Val (AdtServer.mkServer "dev100" "DEV100"),
     (@AdtServer.getServer AdtServer.ascii_case "Dev100" ["DEV100"] ∅).2).
Proof.
  apply (proj1 (@getServer_cached AdtServer.ascii_case "Dev100" ["DEV100"] [] ∅)).
  reflexivity.
Defined.

Lemma fromUri_connectionId_witness :
  (@AdtServer.fromUri AdtServer.ascii_case (AdtServer.mkUri "adt" "Dev100" "/") ["DEV100"]
     (@AdtServer.getServer_all AdtServer.ascii_case [("dev100", ["DEV100"])] ∅)).1
  = Val (AdtServer.mkServer "dev100" "DEV100") /\
  AdtServer.connectionId (AdtServer.mkServer "dev100" "DEV100")
  = @AdtServer.toLowerCase AdtServer.ascii_case "Dev100".
Proof.
  split; [reflexivity|].
  apply (proj1 (proj2 (@fromUri_connectionId AdtServer.ascii_case
                         [("dev100", ["DEV100"])]
                         (AdtServer.mkUri "adt" "Dev100" "/") ["DEV100"]
                         (AdtServer.mkServer "dev100" "DEV100") eq_refl))).
Defined.

Lemma stat_present_witness :
  AdtServer.stat
    (fun (s : unit) (n : nat) (name : string) => if String.eqb name "a" then Some (S n) else None)
    (fun _ _ => true) (fun s _ => (Val tt, s)) (Exn (Js.Error "Error" "offline"))
    (fun _ _ => true) (fun s _ => (Val tt, s))
    0 (AdtServer.mkUri "adt" "dev100" "/a") tt
  = (Exn (Js.Error "Error" "offline"), tt).
Proof.
  apply (proj1 (proj2 (stat_present
                  (fun (s : unit) (n : nat) (name : string) =>
                     if String.eqb name "a" then Some (S n) else None)
                  (fun _ _ => true) (fun s _ => (Val tt, s))
                  (Exn (Js.Error "Error" "offline"))
                  (fun _ _ => true) (fun s _ => (Val tt, s))
                  0 (AdtServer.mkUri "adt" "dev100" "/a") tt)) 1).
  - reflexivity.
  - reflexivity.
  - reflexivity.
Defined.

Lemma getServer_fails_witness :
  exists e, (@AdtServer.getServer AdtServer.ascii_case "qas" ["DEV100"] ∅).1 = Exn e.
Proof.
  apply (proj2 (@getServer_fails AdtServer.ascii_case "qas" ["DEV100"] ∅)).
  split; [reflexivity|].
  intros name [<-|[]] Heq. vm_compute in Heq. discriminate Heq.
Defined.
